(** * TenantService: queries, linkage mutation and the DTO projection

    A shallow embedding of [modular_sdk/services/tenant_service.py].

    The service is a thin layer over a key/range-indexed store.  Three kinds
    of code live in it, and the development follows them:

    - the query builders ([i_scan_tenants], [i_get_tenant_by_parent_id],
      [i_get_tenant_by_customer], [i_get_by_acc], [i_get_by_dntl]), pure
      functions of the stored table that compose an optional filter and hand
      it to the store;
    - the linkage mutations ([add_to_parent_map], [remove_from_parent_map]),
      which read an in-memory [Tenant] object, may raise [ModularException],
      log warnings and send update requests: they are written in a small
      state-and-exception monad over a [World];
    - the projection [get_dto], a function on the JSON dictionary of a
      tenant, which can fail the way the Python expressions in it can. *)

From stdpp Require Import base option list strings gmap fin_maps.
From Stdlib Require Import ZArith Ascii String.

Local Open Scope string_scope.

(** ** Data model *)

(** The attributes of [Tenant] the service reads.  [name] is the hash key;
    apart from the customer and the cloud every attribute may be unset
    ([None] in Python).  [display_name_to_lower] is the attribute behind the
    [dntl] index key, [project] the one behind the account index. *)
Record Tenant := mkTenant {
  name : string;
  customer_name : string;
  cloud : string;
  display_name_to_lower : option string;
  project : option string;
  management_parent_id : option string;
  is_active : option bool;
  parent_map : gmap string string;
}.

Record Parent := mkParent {
  parent_id : string;
  is_deleted : bool;
}.

Definition set_parent_map (m : gmap string string) (t : Tenant) : Tenant :=
  {| name := name t; customer_name := customer_name t; cloud := cloud t;
     display_name_to_lower := display_name_to_lower t; project := project t;
     management_parent_id := management_parent_id t;
     is_active := is_active t; parent_map := m |}.

(** ** Filter conditions

    The expressions built with the overloaded [==] and [&] of the model's
    attributes: a tree of equality leaves joined by [And]. *)

Inductive Attribute :=
| attr_name
| attr_customer_name
| attr_cloud
| attr_display_name_to_lower
| attr_project
| attr_management_parent_id
| attr_is_active.

Inductive Value :=
| VStr (s : string)
| VBool (b : bool).

Global Instance Attribute_eq_dec : EqDecision Attribute.
Proof. solve_decision. Defined.

Global Instance Value_eq_dec : EqDecision Value.
Proof. solve_decision. Defined.

Inductive Condition :=
| Comparison (a : Attribute) (v : Value)
| And (c1 c2 : Condition).

Definition attribute_value (t : Tenant) (a : Attribute) : option Value :=
  match a with
  | attr_name => Some (VStr (name t))
  | attr_customer_name => Some (VStr (customer_name t))
  | attr_cloud => Some (VStr (cloud t))
  | attr_display_name_to_lower => VStr <$> display_name_to_lower t
  | attr_project => VStr <$> project t
  | attr_management_parent_id => VStr <$> management_parent_id t
  | attr_is_active => VBool <$> is_active t
  end.

(** An equality leaf holds of an item when the attribute is set and equal to
    the value; an unset attribute satisfies no comparison. *)
Fixpoint eval (c : Condition) (t : Tenant) : bool :=
  match c with
  | Comparison a v => bool_decide (attribute_value t a = Some v)
  | And c1 c2 => eval c1 t && eval c2 t
  end.

(** [filter_condition=None] is the unfiltered scan or query. *)
Definition holds (c : option Condition) (t : Tenant) : bool :=
  match c with
  | None => true
  | Some c => eval c t
  end.

(** [condition &= c]: the condition class answers [None & c] with [c]
    itself, and [c1 & c2] with their conjunction. *)
Definition iand (condition : option Condition) (c : Condition) : Condition :=
  match condition with
  | None => c
  | Some c1 => And c1 c
  end.

(** ** The store's scan and query capability *)

(** Modelled from the spec: the paginated scan/query executor of the storage
    adapter ([Tenant.scan] and [Index.query]), which this repository's
    sources only call.  The items are visited in the store's key order, the
    visit resumes after [last_evaluated_key] when one is given, the filter is
    applied to the visited items, and [limit] bounds the number of items
    handed back.  [attributes_to_get] only narrows the attributes carried by
    each item and is left out: items are returned whole. *)
Fixpoint resume_after (k : string) (items : list (string * Tenant))
  : list (string * Tenant) :=
  match items with
  | [] => []
  | (k', _) :: rest => if decide (k' = k) then rest else resume_after k rest
  end.

Definition visited (table : gmap string Tenant)
    (last_evaluated_key : option string) : list Tenant :=
  match last_evaluated_key with
  | None => (map_to_list table).*2
  | Some k => (resume_after k (map_to_list table)).*2
  end.

Definition bounded (limit : option nat) (items : list Tenant) : list Tenant :=
  match limit with
  | None => items
  | Some n => take n items
  end.

Definition scan (table : gmap string Tenant) (limit : option nat)
    (last_evaluated_key : option string) (filter_condition : option Condition)
  : list Tenant :=
  bounded limit
    (filter (λ t, holds filter_condition t) (visited table last_evaluated_key)).

(** A secondary index is addressed by the attribute that serves as its hash
    key; an item whose hash attribute is unset is not in the index. *)
Definition customer_name_index : Attribute := attr_customer_name.
Definition project_index : Attribute := attr_project.
Definition dntl_c_index : Attribute := attr_display_name_to_lower.

Definition query (table : gmap string Tenant) (index : Attribute)
    (hash_key : string) (range_key_condition filter_condition : option Condition)
    (limit : option nat) (last_evaluated_key : option string) : list Tenant :=
  bounded limit
    (filter (λ t, holds filter_condition t)
       (filter (λ t, holds range_key_condition t)
          (filter (λ t, attribute_value t index = Some (VStr hash_key))
             (visited table last_evaluated_key)))).

(** ** Query builders of [TenantService] *)

Definition is_active_eq (active : bool) : Condition :=
  Comparison attr_is_active (VBool active).

Definition i_scan_tenants (table : gmap string Tenant) (only_active : bool)
    (limit : option nat) (last_evaluated_key : option string) : list Tenant :=
  let condition : option Condition := None in
  let condition :=
    if only_active then Some (iand condition (is_active_eq true))
    else condition in
  scan table limit last_evaluated_key condition.

(** [list(TenantService.i_scan_tenants(...))] *)
Definition scan_tenants (table : gmap string Tenant) (only_active : bool)
    (limit : option nat) (last_evaluated_key : option string) : list Tenant :=
  i_scan_tenants table only_active limit last_evaluated_key.

(** [x is not None] *)
Definition is_not_None {A} (x : option A) : bool :=
  match x with
  | Some _ => true
  | None => false
  end.

(** The filter [i_get_tenant_by_parent_id] hands to the scan: the parent-id
    conjunct is added under [if condition is not None] only. *)
Definition by_parent_id_condition (parent_id : string) (active : option bool)
  : option Condition :=
  let condition := is_active_eq <$> active in
  if is_not_None condition
  then Some (iand condition
               (Comparison attr_management_parent_id (VStr parent_id)))
  else condition.

Definition i_get_tenant_by_parent_id (table : gmap string Tenant)
    (parent_id : string) (active : option bool) (limit : option nat)
    (last_evaluated_key : option string) : list Tenant :=
  scan table limit last_evaluated_key (by_parent_id_condition parent_id active).

Definition get_tenants_by_parent_id (table : gmap string Tenant)
    (parent_id : string) (only_active : bool) : list Tenant :=
  i_get_tenant_by_parent_id table parent_id (Some only_active) None None.

(** Modelled from the spec: [default_instance] of [modular_sdk.commons], the
    normalisation step of the predicate builder.  A value of the requested
    type is kept, anything else (here: an absent name) is replaced by the
    type's default instance, [str()], the empty string. *)
Definition default_instance_str (value : option string) : string :=
  default "" value.

(** Truth value of a Python string: empty is false. *)
Definition str_truthy (s : string) : bool :=
  match s with
  | EmptyString => false
  | String _ _ => true
  end.

Definition by_customer_condition (active : option bool)
    (tenant_name : option string) : option Condition :=
  let condition := is_active_eq <$> active in
  let name_ := default_instance_str tenant_name in
  if is_not_None condition && str_truthy name_
  then Some (iand condition (Comparison attr_name (VStr name_)))
  else if str_truthy name_
  then Some (Comparison attr_name (VStr name_))
  else condition.

Definition i_get_tenant_by_customer (table : gmap string Tenant)
    (customer_id : string) (active : option bool) (tenant_name : option string)
    (limit : option nat) (last_evaluated_key : option string) : list Tenant :=
  query table customer_name_index customer_id None
    (by_customer_condition active tenant_name) limit last_evaluated_key.

Definition i_get_by_acc (table : gmap string Tenant) (acc : string)
    (active : option bool) (limit : option nat)
    (last_evaluated_key : option string) : list Tenant :=
  let condition := is_active_eq <$> active in
  query table project_index acc None condition limit last_evaluated_key.

(** [str.upper] on ASCII text: the letters a-z are mapped to A-Z and every
    other character is kept.  A string stands for a Python [str] only when
    it is ASCII ([is_ascii] below); the properties of the cloud filter are
    stated for ASCII arguments. *)
Definition upper_ascii (c : ascii) : ascii :=
  let n := nat_of_ascii c in
  if (97 <=? n)%nat && (n <=? 122)%nat then ascii_of_nat (n - 32) else c.

Fixpoint upper (s : string) : string :=
  match s with
  | EmptyString => EmptyString
  | String c rest => String (upper_ascii c) (upper rest)
  end.

Definition i_get_by_dntl (table : gmap string Tenant) (dntl : string)
    (cloud_ : option string) (active : option bool) (limit : option nat)
    (last_evaluated_key : option string) : list Tenant :=
  let fc := is_active_eq <$> active in
  let rc := (λ c, Comparison attr_cloud (VStr (upper c))) <$> cloud_ in
  query table dntl_c_index dntl rc fc limit last_evaluated_key.

(** ** Linkage mutation: the world the service acts on *)

Record ModularException := mkModularException {
  code : Z;
  content : string;
}.

(** The update actions the service builds:
    [Tenant.parent_map.set(value)] and [Tenant.parent_map[key].remove()]. *)
Inductive Action :=
| parent_map_set (value : gmap string string)
| parent_map_key_remove (key : string).

(** [tenant_obj] is the in-memory [Tenant] object the caller passes by
    reference, [table] the stored items by hash key, [updates] the update
    requests sent to the store so far (hash key and actions), [warnings] the
    lines written with [_LOG.warning]. *)
Record World := mkWorld {
  tenant_obj : Tenant;
  table : gmap string Tenant;
  updates : list (string * list Action);
  warnings : list string;
}.

Inductive Outcome (A : Type) :=
| Returned (a : A)
| Raised (e : ModularException).
Arguments Returned {A} a.
Arguments Raised {A} e.

Definition M (A : Type) : Type := World → Outcome A * World.

Global Instance M_ret : MRet M := λ A a w, (Returned a, w).

Global Instance M_bind : MBind M := λ A B f m w,
  match m w with
  | (Returned a, w') => f a w'
  | (Raised e, w') => (Raised e, w')
  end.

Definition raise {A} (e : ModularException) : M A := λ w, (Raised e, w).

(** Reading an attribute of the tenant object. *)
Definition tenant_attr {A} (f : Tenant → A) : M A :=
  λ w, (Returned (f (tenant_obj w)), w).

(** [w] with one more warning line. *)
Definition logged (line : string) (w : World) : World :=
  {| tenant_obj := tenant_obj w; table := table w; updates := updates w;
     warnings := warnings w ++ [line] |}.

(** [_LOG.warning(line)] *)
Definition warning (line : string) : M unit := λ w,
  (Returned tt, logged line w).

Definition apply_action (item : Tenant) (a : Action) : Tenant :=
  match a with
  | parent_map_set value => set_parent_map value item
  | parent_map_key_remove key => set_parent_map (delete key (parent_map item)) item
  end.

(** Modelled from the spec: the attribute-update capability of the storage
    adapter behind [tenant.update(actions=...)].  The request addresses the
    stored item under the object's hash key and applies the actions to it
    (removing an absent key of a map changes nothing); the updated item is
    written back and returned, and the in-memory object takes its
    attributes.  An item that is not stored yet is created from the object.

    The definition describes the requests the store accepts.  The store
    rejects a single-key action under a map attribute the item does not
    have (the reason [add_to_parent_map] sets the whole map); that rejection
    is not represented here, so what is stated about a single-key removal is
    stated for a stored item whose map holds the key.  Statements that
    compare the object with the store say so with [in_sync]. *)
Definition update (actions : list Action) : M unit := λ w,
  let key := name (tenant_obj w) in
  let item := default (tenant_obj w) (table w !! key) in
  let item' := foldl apply_action item actions in
  (Returned tt,
   {| tenant_obj := item'; table := <[key := item']> (table w);
      updates := updates w ++ [(key, actions)]; warnings := warnings w |}).

(** Truth value of a nullable boolean attribute: unset is false. *)
Definition truthy (b : option bool) : bool := default false b.

Section Service.

(** Constants of [modular_sdk.commons]: the status code carried by the
    exceptions and the allow-list of linkage types. *)
Variable RESPONSE_BAD_REQUEST_CODE : Z.
Variable ALLOWED_TENANT_PARENT_MAP_KEYS : list string.

Definition bad_request (text : string) : ModularException :=
  {| code := RESPONSE_BAD_REQUEST_CODE; content := text |}.

(** The texts of the four failures of [add_to_parent_map]. *)
Definition unsupported_type_text (type_ : string) : string :=
  "Unsupported type '" +:+ type_ +:+ "'. Available options: "
    +:+ String.concat ", " ALLOWED_TENANT_PARENT_MAP_KEYS.

Definition not_active_text (tenant_name : string) : string :=
  "Tenant '" +:+ tenant_name +:+ "' is not active.".

Definition parent_deleted_log (parent_id_ : string) : string :=
  "Parent '" +:+ parent_id_ +:+ "' is deleted.".

Definition deleted_text (tenant_name : string) : string :=
  "Tenant '" +:+ tenant_name +:+ "' is deleted.".

Definition already_has_text (tenant_name type_ : string) : string :=
  "Tenant '" +:+ tenant_name +:+ "' already has '" +:+ type_ +:+ "' "
    +:+ "linkage type.".

Definition add_to_parent_map (parent : Parent) (type_ : string) : M Tenant :=
  if negb (bool_decide (type_ ∈ ALLOWED_TENANT_PARENT_MAP_KEYS)) then
    warning (unsupported_type_text type_);;
    raise (bad_request (unsupported_type_text type_))
  else
  active ← tenant_attr is_active;
  if negb (truthy active) then
    tenant_name ← tenant_attr name;
    warning (not_active_text tenant_name);;
    raise (bad_request (not_active_text tenant_name))
  else
  if is_deleted parent then
    warning (parent_deleted_log (parent_id parent));;
    tenant_name ← tenant_attr name;
    raise (bad_request (deleted_text tenant_name))
  else
  parent_map_ ← tenant_attr parent_map;
  if bool_decide (is_Some (parent_map_ !! type_)) then
    tenant_name ← tenant_attr name;
    warning (already_has_text tenant_name type_);;
    raise (bad_request (already_has_text tenant_name type_))
  else
  let parent_map_ := <[type_ := parent_id parent]> parent_map_ in
  update [parent_map_set parent_map_];;
  tenant_attr id.

Definition remove_from_parent_map (type_ : string) : M Tenant :=
  active ← tenant_attr is_active;
  if negb (truthy active) then
    tenant_name ← tenant_attr name;
    warning (not_active_text tenant_name);;
    tenant_attr id
  else
  update [parent_map_key_remove type_];;
  tenant_attr id.

(** Calling detach once per element of [types], in order, as long as no call
    raises. *)
Fixpoint detach_each (types : list string) : M unit :=
  match types with
  | [] => mret tt
  | type_ :: rest => remove_from_parent_map type_;; detach_each rest
  end.

End Service.

(** ** The DTO projection *)

(** JSON values as [tenant.get_json()] yields them; a dictionary is a finite
    map from keys to values.  Numbers are the integers. *)
#[warnings="-register-all"]
Inductive Json :=
| JNull
| JBool (b : bool)
| JNum (n : Z)
| JStr (s : string)
| JList (items : list Json)
| JObj (fields : gmap string Json).

(** The exceptions the expressions of [get_dto] can raise. *)
Inductive PyError :=
| TypeError
| AttributeError
| KeyError.

Inductive Result (A : Type) :=
| Ok (a : A)
| Fails (e : PyError).
Arguments Ok {A} a.
Arguments Fails {A} e.

Global Instance Result_ret : MRet Result := λ A a, Ok a.

Global Instance Result_bind : MBind Result := λ A B f r,
  match r with
  | Ok a => f a
  | Fails e => Fails e
  end.

(** Truth value of a JSON value: [None], [False], zero and the empty string,
    list and dictionary are false. *)
Definition json_truthy (v : Json) : bool :=
  match v with
  | JNull => false
  | JBool b => b
  | JNum n => negb (n =? 0)%Z
  | JStr s => str_truthy s
  | JList items => match items with [] => false | _ :: _ => true end
  | JObj fields => negb (bool_decide (fields = ∅))
  end.

(** [a or b] *)
Definition py_or (a b : Json) : Json := if json_truthy a then a else b.

(** [d.get(key)]: the value, or [None] for a missing key. *)
Definition dict_get (d : gmap string Json) (key : string) : Json :=
  default JNull (d !! key).

Fixpoint chars (s : string) : list Json :=
  match s with
  | EmptyString => []
  | String c rest => JStr (String c EmptyString) :: chars rest
  end.

(** [for each in v]: the items of a list, the characters of a string, the
    keys of a dictionary; other values are not iterable. *)
Definition iterate (v : Json) : Result (list Json) :=
  match v with
  | JList items => Ok items
  | JStr s => Ok (chars s)
  | JObj fields => Ok (JStr <$> (map_to_list fields).*1)
  | JNull | JBool _ | JNum _ => Fails TypeError
  end.

Fixpoint occurs_in (needle s : string) : bool :=
  String.prefix needle s ||
  match s with
  | EmptyString => false
  | String _ rest => occurs_in needle rest
  end.

(** [v == key] for a string [key]: only an equal string compares equal. *)
Definition eq_str (key : string) (v : Json) : bool :=
  match v with
  | JStr s => bool_decide (s = key)
  | _ => false
  end.

(** [key in v]: a key of a dictionary, an element of a list, a substring of
    a string; on the other values the operator raises. *)
Definition contains (key : string) (v : Json) : Result bool :=
  match v with
  | JObj fields => Ok (bool_decide (is_Some (fields !! key)))
  | JList items => Ok (existsb (eq_str key) items)
  | JStr s => Ok (occurs_in key s)
  | JNull | JBool _ | JNum _ => Fails TypeError
  end.

(** [v.get(key)]: only dictionaries have the method. *)
Definition get_method (v : Json) (key : string) : Result Json :=
  match v with
  | JObj fields => Ok (dict_get fields key)
  | _ => Fails AttributeError
  end.

(** [v[key]] for a string key, reached for dictionaries only. *)
Definition getitem (v : Json) (key : string) : Result Json :=
  match v with
  | JObj fields =>
      match fields !! key with
      | Some x => Ok x
      | None => Fails KeyError
      end
  | _ => Fails TypeError
  end.

(** [v != False]: [False] and the number zero compare equal to [False]. *)
Definition ne_False (v : Json) : bool :=
  match v with
  | JBool b => b
  | JNum n => negb (n =? 0)%Z
  | _ => true
  end.

(** The condition of the comprehension, with the short circuit of [and]. *)
Definition region_kept (each : Json) : Result bool :=
  named ← contains "maestro_name" each;
  if (named : bool) then
    flag ← get_method each "is_active";
    mret (ne_False flag)
  else mret false.

(** [[each['maestro_name'] for each in regions if ...]] *)
Fixpoint display_names (regions : list Json) : Result (list Json) :=
  match regions with
  | [] => mret []
  | each :: rest =>
      kept ← region_kept each;
      if (kept : bool) then
        shown ← getitem each "maestro_name";
        others ← display_names rest;
        mret (shown :: others)
      else display_names rest
  end.

(** [get_dto] on the dictionary [tenant.get_json()] returns. *)
Definition get_dto (tenant_json : gmap string Json)
  : Result (gmap string Json) :=
  let regions := py_or (dict_get tenant_json "regions") (JList []) in
  let popped := dict_get tenant_json "project" in
  let tenant_json := delete "project" tenant_json in
  let tenant_json := <["account_id" := popped]> tenant_json in
  items ← iterate regions;
  shown ← display_names items;
  let tenant_json := <["regions" := JList shown]> tenant_json in
  mret tenant_json.

(** ** The contracts, in the words of the specification *)

(** What each optional filter argument asks of a returned item: an absent
    argument asks nothing. *)
Definition active_matches (active : option bool) (t : Tenant) : bool :=
  match active with
  | None => true
  | Some a => bool_decide (is_active t = Some a)
  end.

(** An absent or empty name is no filter, not a match on the empty string. *)
Definition name_matches (tenant_name : option string) (t : Tenant) : bool :=
  match tenant_name with
  | None => true
  | Some n => if str_truthy n then bool_decide (name t = n) else true
  end.

(** Upper-casing, told by the alphabet: a character that is the n-th small
    letter is replaced by the n-th capital letter, any other is kept. *)
Definition small_letters : string := "abcdefghijklmnopqrstuvwxyz".
Definition capital_letters : string := "ABCDEFGHIJKLMNOPQRSTUVWXYZ".

Fixpoint capital_of (c : ascii) (smalls capitals : string) : ascii :=
  match smalls, capitals with
  | String small smalls', String capital capitals' =>
      if Ascii.eqb c small then capital else capital_of c smalls' capitals'
  | _, _ => c
  end.

Fixpoint capitalised (s : string) : string :=
  match s with
  | EmptyString => EmptyString
  | String c rest =>
      String (capital_of c small_letters capital_letters) (capitalised rest)
  end.

Fixpoint occurs (c : ascii) (s : string) : bool :=
  match s with
  | EmptyString => false
  | String c' rest => Ascii.eqb c c' || occurs c rest
  end.

(** The string has a small letter in it. *)
Fixpoint has_small_letter (s : string) : bool :=
  match s with
  | EmptyString => false
  | String c rest => occurs c small_letters || has_small_letter rest
  end.

(** The string is ASCII text: every character code is below 128. *)
Fixpoint is_ascii (s : string) : bool :=
  match s with
  | EmptyString => true
  | String c rest => (nat_of_ascii c <? 128)%nat && is_ascii rest
  end.

Definition stored (table : gmap string Tenant) (t : Tenant) : Prop :=
  ∃ k, table !! k = Some t.

(** A region entry as the tenant model types it: a dictionary whose
    [is_active], when present, is a boolean or null. *)
Definition is_region_entry (v : Json) : bool :=
  match v with
  | JObj fields =>
      match fields !! "is_active" with
      | None | Some JNull | Some (JBool _) => true
      | Some _ => false
      end
  | _ => false
  end.

(** The [regions] of a tenant dictionary are absent, null or a list of
    region entries. *)
Definition regions_typed (tenant_json : gmap string Json) : bool :=
  match tenant_json !! "regions" with
  | None | Some JNull => true
  | Some (JList regions) => forallb is_region_entry regions
  | Some _ => false
  end.

(** The region entries of a tenant dictionary: none when [regions] is
    absent or null. *)
Definition regions_of (tenant_json : gmap string Json) : list Json :=
  match tenant_json !! "regions" with
  | Some (JList regions) => regions
  | _ => []
  end.

(** The three states of a region's activity flag. *)
Inductive Activity :=
| flag_true
| flag_false
| flag_absent.

Definition activity (fields : gmap string Json) : Activity :=
  match fields !! "is_active" with
  | Some (JBool true) => flag_true
  | Some (JBool false) => flag_false
  | _ => flag_absent
  end.

(** The display name a region entry contributes: the entry carries one and
    its flag is not explicitly false. *)
Definition shown_name (v : Json) : option Json :=
  match v with
  | JObj fields =>
      match activity fields with
      | flag_false => None
      | flag_true | flag_absent => fields !! "maestro_name"
      end
  | _ => None
  end.

Definition shown_regions (regions : list Json) : list Json :=
  omap shown_name regions.

(** A tenant dictionary with a project and three regions, one per state of
    the flag, and a region without display name. *)
Definition region (fields : list (string * Json)) : Json :=
  JObj (list_to_map fields).

Definition tenant_json_T1 : gmap string Json :=
  list_to_map
    [("name", JStr "T1"); ("project", JStr "acc-1");
     ("regions",
      JList [region [("maestro_name", JStr "EU_WEST"); ("is_active", JBool true)];
             region [("maestro_name", JStr "EU_NORTH"); ("is_active", JBool false)];
             region [("maestro_name", JStr "US_EAST")];
             region [("native_name", JStr "us-west-2"); ("is_active", JBool true)];
             region [("maestro_name", JStr "AP_SOUTH"); ("is_active", JNull)]])].

(** The linkage map the store holds for a key; an item that is not stored
    has none. *)
Definition stored_parent_map (w : World) (key : string) : gmap string string :=
  default ∅ (parent_map <$> table w !! key).

(** No mutation: the tenant object, the table and the update requests of
    [w'] are those of [w] (warnings may have been logged). *)
Definition unchanged (w w' : World) : Prop :=
  tenant_obj w' = tenant_obj w ∧ table w' = table w ∧ updates w' = updates w.

(** The single-key update of the specification, at one call: after the
    attach the stored map has the target under the linkage type and every
    other key as it was stored before the call. *)
Definition single_key_update (RC : Z) (ALLOWED : list string)
    (parent : Parent) (type_ : string) (w : World) : Prop :=
  let w' := (add_to_parent_map RC ALLOWED parent type_ w).2 in
  let key := name (tenant_obj w) in
  stored_parent_map w' key !! type_ = Some (parent_id parent)
  ∧ ∀ k, k ≠ type_ →
      stored_parent_map w' key !! k = stored_parent_map w key !! k.

(** Scenario of the specification: tenant [T1], active, with an empty
    linkage map, stored as it is in memory. *)
Definition allowed_types : list string := ["TENANT_MANAGER"; "CUSTODIAN"].

Definition parent_P1 : Parent := {| parent_id := "P1"; is_deleted := false |}.
Definition parent_P2 : Parent := {| parent_id := "P2"; is_deleted := true |}.

Definition tenant_T1 : Tenant :=
  {| name := "T1"; customer_name := "ACME"; cloud := "AWS";
     display_name_to_lower := Some "corp-unit-1"; project := Some "acc-1";
     management_parent_id := Some "p1"; is_active := Some true;
     parent_map := ∅ |}.

Definition tenant_T2 : Tenant :=
  {| name := "T2"; customer_name := "ACME"; cloud := "AZURE";
     display_name_to_lower := Some "corp-unit-1"; project := Some "acc-2";
     management_parent_id := Some "p2"; is_active := Some false;
     parent_map := ∅ |}.

Definition two_tenants : gmap string Tenant :=
  <["T1" := tenant_T1]> (<["T2" := tenant_T2]> ∅).

Definition world_of (t : Tenant) (items : gmap string Tenant) : World :=
  {| tenant_obj := t; table := items; updates := []; warnings := [] |}.

Definition fresh_world : World := world_of tenant_T1 two_tenants.

(** The same tenant read before another writer stored a [CUSTODIAN] linkage:
    the object in memory still has the empty map. *)
Definition stale_world : World :=
  world_of tenant_T1
    (<["T1" := set_parent_map {["CUSTODIAN" := "P0"]} tenant_T1]> two_tenants).

(** The world after the scenario's first attach of [TENANT_MANAGER]. *)
Definition attached_world : World :=
  (add_to_parent_map 400 allowed_types parent_P1 "TENANT_MANAGER" fresh_world).2.

(** An inactive tenant that still carries a linkage. *)
Definition inactive_world : World :=
  world_of (set_parent_map {["CUSTODIAN" := "P0"]} tenant_T2) two_tenants.

(** ** Further operations and contracts *)

(** The table is keyed by the hash-key attribute: every item is stored under
    its own [name]. *)
Definition keyed (table : gmap string Tenant) : Prop :=
  map_Forall (λ k item, name item = k) table.

(** The tenant object is the stored item. *)
Definition in_sync (w : World) : Prop :=
  table w !! name (tenant_obj w) = Some (tenant_obj w).

(** Every key of a linkage map is an allow-listed linkage type. *)
Definition keys_allowed (ALLOWED : list string) (m : gmap string string)
  : Prop :=
  map_Forall (λ k _, k ∈ ALLOWED) m.

Global Instance keyed_dec table : Decision (keyed table).
Proof. unfold keyed. apply _. Defined.

Global Instance keys_allowed_dec ALLOWED m : Decision (keys_allowed ALLOWED m).
Proof. unfold keys_allowed. apply _. Defined.

Definition linkage_allowed (ALLOWED : list string) (w : World) : Prop :=
  keys_allowed ALLOWED (parent_map (tenant_obj w))
  ∧ map_Forall (λ _ item, keys_allowed ALLOWED (parent_map item)) (table w).



(** The scenario's tenant with a [CUSTODIAN] linkage, in memory as stored. *)
Definition linked_T1 : Tenant :=
  set_parent_map {["CUSTODIAN" := "P0"]} tenant_T1.

Definition linked_world : World :=
  world_of linked_T1 (<["T1" := linked_T1]> two_tenants).

Definition unlinked_world : World :=
  (remove_from_parent_map "CUSTODIAN" linked_world).2.

(** The same tenant with one more linkage, under a key that is not in the
    allow-list. *)
Definition legacy_T1 : Tenant :=
  set_parent_map {["CUSTODIAN" := "P0"; "LEGACY" := "P9"]} tenant_T1.

Definition legacy_world : World :=
  world_of legacy_T1 (<["T1" := legacy_T1]> two_tenants).

(** * Properties *)

(** ** The store *)

Lemma resume_after_sublist k (items : list (string * Tenant)) :
  resume_after k items `sublist_of` items.
Proof.
  induction items as [|[k' t] rest IH]; simpl; [constructor|].
  destruct (decide (k' = k)); by apply sublist_cons.
Qed.

Lemma visited_stored table last_evaluated_key t :
  t ∈ visited table last_evaluated_key → stored table t.
Proof.
  unfold visited, stored. intros Hin.
  assert (∃ k, (k, t) ∈ map_to_list table) as [k Hk].
  { destruct last_evaluated_key as [k0|];
      apply list_elem_of_fmap in Hin as [[k t'] [-> Hin]]; simpl.
    - exists k. eapply elem_of_sublist; [done|apply resume_after_sublist].
    - by exists k. }
  exists k. by apply elem_of_map_to_list.
Qed.

Lemma visited_whole table k t :
  table !! k = Some t → t ∈ visited table None.
Proof.
  intros Hk. unfold visited. apply list_elem_of_fmap.
  exists (k, t). split; [done|]. by apply elem_of_map_to_list.
Qed.

Lemma bounded_subseteq limit (items : list Tenant) t :
  t ∈ bounded limit items → t ∈ items.
Proof.
  destruct limit as [n|]; simpl; [|done]. apply subseteq_take.
Qed.

Lemma elem_of_scan table limit last_evaluated_key c t :
  t ∈ scan table limit last_evaluated_key c →
  holds c t = true ∧ stored table t.
Proof.
  unfold scan. intros Hin%bounded_subseteq.
  apply list_elem_of_filter in Hin as [Hc Hv].
  split; [by apply Is_true_true|by eapply visited_stored].
Qed.

Lemma scan_complete table c k t :
  table !! k = Some t → holds c t = true → t ∈ scan table None None c.
Proof.
  intros Hk Hc. unfold scan; simpl. apply list_elem_of_filter.
  split; [by apply Is_true_true|by eapply visited_whole].
Qed.

(** A query is one filter: the hash key, the range condition and the filter
    condition are conjuncts. *)
Lemma query_filter table index hash_key rc fc limit last_evaluated_key :
  query table index hash_key rc fc limit last_evaluated_key
  = bounded limit
      (filter (λ t, attribute_value t index = Some (VStr hash_key)
                    ∧ holds rc t = true ∧ holds fc t = true)
         (visited table last_evaluated_key)).
Proof.
  unfold query. f_equal. rewrite !list_filter_filter.
  apply list_filter_iff. intros t. rewrite !Is_true_true. tauto.
Qed.

Lemma holds_active active t :
  holds (is_active_eq <$> active) t = active_matches active t.
Proof.
  destruct active as [a|]; simpl; [|done].
  apply bool_decide_ext. split; [|by intros ->].
  destruct (is_active t); naive_solver.
Qed.

Lemma holds_iand condition c t :
  eval (iand condition c) t = holds condition t && eval c t.
Proof. by destruct condition. Qed.

(** ** Scans *)

(** C3.  A scan with the active-only flag never returns a tenant whose
    [is_active] flag is not true: every item of the result of
    [i_scan_tenants] and of [scan_tenants] is a stored tenant with
    [is_active] true, and with no page bound every such tenant is returned. *)
Theorem i_scan_tenants_only_active table limit last_evaluated_key E :
  is_active E ≠ Some true →
  (E ∉ i_scan_tenants table true limit last_evaluated_key)
  ∧ (E ∉ scan_tenants table true limit last_evaluated_key)
  ∧ Forall (λ t, is_active t = Some true ∧ stored table t)
      (scan_tenants table true limit last_evaluated_key)
  ∧ (∀ k t, table !! k = Some t → is_active t = Some true →
       t ∈ scan_tenants table true None None).
Proof.
  intros Hinactive.
  assert (∀ lim lek, scan_tenants table true lim lek
                     = scan table lim lek (Some (is_active_eq true))) as Hcond
    by reflexivity.
  unfold i_scan_tenants, iand. rewrite !Hcond.
  assert (∀ t, t ∈ scan table limit last_evaluated_key
                     (Some (is_active_eq true)) →
               is_active t = Some true ∧ stored table t) as Hsound.
  { intros t [Hc Hst]%elem_of_scan. split; [|done].
    simpl in Hc. apply bool_decide_eq_true in Hc.
    destruct (is_active t); naive_solver. }
  repeat split.
  - intros Hin. by apply Hsound in Hin as [? _].
  - intros Hin. by apply Hsound in Hin as [? _].
  - apply Forall_forall. intros t Hin. by apply Hsound.
  - intros k t Hk Hact. eapply scan_complete; [done|].
    simpl. apply bool_decide_eq_true. by rewrite Hact.
Qed.

Lemma i_scan_tenants_only_active_witness :
  is_active tenant_T2 ≠ Some true
  ∧ (tenant_T2 ∉ i_scan_tenants two_tenants true None None)
  ∧ i_scan_tenants two_tenants true None None = [tenant_T1]
  ∧ i_scan_tenants two_tenants false None None = [tenant_T1; tenant_T2].
Proof.
  assert (is_active tenant_T2 ≠ Some true) as H by (simpl; discriminate).
  split; [exact H|]. split.
  - exact (proj1 (i_scan_tenants_only_active two_tenants None None tenant_T2 H)).
  - split; vm_compute; reflexivity.
Defined.

(** With a boolean [active] the parent-id conjunct is composed with the
    activity conjunct. *)
Lemma i_get_tenant_by_parent_id_active table parent_id a limit lek t :
  t ∈ i_get_tenant_by_parent_id table parent_id (Some a) limit lek →
  management_parent_id t = Some parent_id ∧ is_active t = Some a.
Proof.
  intros [Hc _]%elem_of_scan. simpl in Hc.
  apply andb_true_iff in Hc as [Ha Hp].
  apply bool_decide_eq_true in Ha, Hp.
  destruct (management_parent_id t), (is_active t); naive_solver.
Qed.

(** With [active] absent no condition at all reaches the scan. *)
Lemma by_parent_id_condition_None parent_id :
  by_parent_id_condition parent_id None = None.
Proof. reflexivity. Qed.

(** C2, at the failing input.  Asked for the tenants of parent ["p1"] with
    [active] left absent, the scan runs unfiltered and returns the tenant of
    parent ["p2"] as well. *)
Theorem i_get_tenant_by_parent_id_unfiltered :
  i_get_tenant_by_parent_id two_tenants "p1" None None None
  = [tenant_T1; tenant_T2]
  ∧ management_parent_id tenant_T2 = Some "p2"
  ∧ i_get_tenant_by_parent_id two_tenants "p1" (Some true) None None
    = [tenant_T1].
Proof. repeat split; vm_compute; reflexivity. Qed.

(** ** Index queries *)

Lemma name_conjunct active n t :
  str_truthy n = true →
  holds (by_customer_condition active (Some n)) t
  = active_matches active t && bool_decide (name t = n).
Proof.
  intros Hn. unfold by_customer_condition; simpl. rewrite Hn.
  destruct active as [a|]; simpl.
  - f_equal.
    + apply bool_decide_ext. destruct (is_active t); naive_solver.
    + apply bool_decide_ext. naive_solver.
  - apply bool_decide_ext. naive_solver.
Qed.

Lemma holds_by_customer active tenant_name t :
  holds (by_customer_condition active tenant_name) t
  = active_matches active t && name_matches tenant_name t.
Proof.
  destruct tenant_name as [[|c rest]|].
  - rewrite andb_true_r, <- holds_active. by destruct active.
  - by rewrite name_conjunct.
  - rewrite andb_true_r, <- holds_active. by destruct active.
Qed.

(** C8.  In the by-customer query an absent or empty tenant name is no filter
    on the name: the condition handed to the index is the activity conjunct
    alone (or none), not a comparison with the empty string.  A non-empty
    name adds the equality on [name], conjoined with the activity conjunct
    when there is one.  The result is the page of the customer's items that
    satisfy exactly these conjuncts. *)
Theorem i_get_tenant_by_customer_name_filter
    table customer_id active tenant_name limit last_evaluated_key :
  by_customer_condition active None = is_active_eq <$> active
  ∧ by_customer_condition active (Some "") = is_active_eq <$> active
  ∧ (∀ c rest,
       by_customer_condition active (Some (String c rest))
       = Some (iand (is_active_eq <$> active)
                 (Comparison attr_name (VStr (String c rest)))))
  ∧ i_get_tenant_by_customer table customer_id active tenant_name limit
      last_evaluated_key
    = bounded limit
        (filter (λ t, customer_name t = customer_id
                      ∧ active_matches active t = true
                      ∧ name_matches tenant_name t = true)
           (visited table last_evaluated_key)).
Proof.
  split; [by destruct active|]. split; [by destruct active|].
  split; [by destruct active|].
  unfold i_get_tenant_by_customer. rewrite query_filter. f_equal.
  apply list_filter_iff. intros t.
  rewrite holds_by_customer, andb_true_iff. simpl. split.
  - intros ([= Hc] & _ & Ha & Hn). done.
  - intros (Hc & Ha & Hn). by rewrite Hc.
Qed.

Example i_get_tenant_by_customer_empty_name :
  i_get_tenant_by_customer two_tenants "ACME" None (Some "") None None
  = [tenant_T1; tenant_T2]
  ∧ i_get_tenant_by_customer two_tenants "ACME" (Some true) None None None
    = [tenant_T1]
  ∧ i_get_tenant_by_customer two_tenants "ACME" (Some false) (Some "T2") None None
    = [tenant_T2]
  ∧ i_get_tenant_by_customer two_tenants "ACME" (Some true) (Some "T2") None None
    = [].
Proof. repeat split; vm_compute; reflexivity. Qed.

(** The upper-casing of the code is the one told by the alphabet. *)
Lemma upper_ascii_capital c :
  upper_ascii c = capital_of c small_letters capital_letters.
Proof. destruct c as [[] [] [] [] [] [] [] []]; reflexivity. Qed.

Lemma upper_capitalised s : upper s = capitalised s.
Proof.
  induction s as [|c rest IH]; [done|].
  simpl. by rewrite upper_ascii_capital, IH.
Qed.

(** C9.  In the directory-name query a supplied ASCII cloud is upper-cased,
    every small letter replaced by its capital, and compared for equality
    as the range-key condition: the result is the page of the items with the
    directory name asked for, the activity asked for and the capitalised
    cloud as their cloud, so every item returned for cloud ["aws"] has cloud
    ["AWS"].  With the cloud absent there is no range condition: the result
    is the page of the items with that directory name and activity, whatever
    their cloud. *)
Theorem i_get_by_dntl_cloud_upper
    table dntl cloud_ active limit last_evaluated_key :
  is_ascii cloud_ = true →
  upper cloud_ = capitalised cloud_
  ∧ i_get_by_dntl table dntl (Some cloud_) active limit last_evaluated_key
    = bounded limit
        (filter (λ t, display_name_to_lower t = Some dntl
                      ∧ cloud t = capitalised cloud_
                      ∧ active_matches active t = true)
           (visited table last_evaluated_key))
  ∧ (∀ t, t ∈ i_get_by_dntl table dntl (Some "aws") active limit
                last_evaluated_key →
          display_name_to_lower t = Some dntl ∧ cloud t = "AWS")
  ∧ i_get_by_dntl table dntl None active limit last_evaluated_key
    = bounded limit
        (filter (λ t, display_name_to_lower t = Some dntl
                      ∧ active_matches active t = true)
           (visited table last_evaluated_key)).
Proof.
  intros _.
  assert (∀ c, i_get_by_dntl table dntl (Some c) active limit
                 last_evaluated_key
    = bounded limit
        (filter (λ t, display_name_to_lower t = Some dntl
                      ∧ cloud t = capitalised c
                      ∧ active_matches active t = true)
           (visited table last_evaluated_key))) as Heq.
  { intros c. unfold i_get_by_dntl. rewrite query_filter. f_equal.
    apply list_filter_iff. intros t.
    rewrite holds_active, <- upper_capitalised. simpl.
    rewrite bool_decide_eq_true. split.
    - intros (Hd & [= Hc] & Ha).
      by destruct (display_name_to_lower t) as [d|]; simplify_eq/=.
    - intros (Hd & Hc & Ha). by rewrite Hd, Hc. }
  split; [apply upper_capitalised|]. split; [apply Heq|]. split.
  - intros t. rewrite Heq. intros Hin%bounded_subseteq.
    by apply list_elem_of_filter in Hin as [(Hd & Hc & _) _].
  - unfold i_get_by_dntl. rewrite query_filter. f_equal.
    apply list_filter_iff. intros t. rewrite holds_active. simpl. split.
    + intros (Hd & _ & Ha).
      by destruct (display_name_to_lower t) as [d|]; simplify_eq/=.
    + intros (Hd & Ha). by rewrite Hd.
Qed.

Lemma i_get_by_dntl_cloud_upper_witness :
  is_ascii "Azure" = true
  ∧ upper "Azure" = "AZURE"
  ∧ i_get_by_dntl two_tenants "corp-unit-1" (Some "Azure") None None None
    = [tenant_T2].
Proof.
  assert (is_ascii "Azure" = true) as Hascii by reflexivity.
  split; [exact Hascii|].
  destruct (i_get_by_dntl_cloud_upper two_tenants "corp-unit-1" "Azure" None
              None None Hascii) as (Hupper & Hresult & _).
  split; [exact Hupper|].
  rewrite Hresult. vm_compute; reflexivity.
Defined.

Example i_get_by_dntl_aws :
  i_get_by_dntl two_tenants "corp-unit-1" (Some "aws") None None None
  = [tenant_T1]
  ∧ i_get_by_dntl two_tenants "corp-unit-1" (Some "Azure") None None None
    = [tenant_T2]
  ∧ i_get_by_dntl two_tenants "corp-unit-1" None None None None
    = [tenant_T1; tenant_T2].
Proof. repeat split; vm_compute; reflexivity. Qed.

(** ** Linkage mutation *)

Lemma logged_unchanged line w : unchanged w (logged line w).
Proof. by repeat split. Qed.

Section Linkage.

Context (RC : Z) (ALLOWED : list string).

Local Abbreviation attach := (add_to_parent_map RC ALLOWED).

(** The four guards of [add_to_parent_map], in the order of the code, and
    the update that follows them. *)
Lemma attach_unsupported parent type_ w :
  type_ ∉ ALLOWED →
  attach parent type_ w
  = (Raised (bad_request RC (unsupported_type_text ALLOWED type_)),
     logged (unsupported_type_text ALLOWED type_) w).
Proof.
  intros Hno. unfold add_to_parent_map.
  by rewrite bool_decide_eq_false_2.
Qed.

Lemma attach_not_active parent type_ w :
  type_ ∈ ALLOWED →
  truthy (is_active (tenant_obj w)) = false →
  attach parent type_ w
  = (Raised (bad_request RC (not_active_text (name (tenant_obj w)))),
     logged (not_active_text (name (tenant_obj w))) w).
Proof.
  intros Hin Hact. unfold add_to_parent_map.
  rewrite bool_decide_eq_true_2 by done. simpl.
  unfold mbind, M_bind, tenant_attr. by rewrite Hact.
Qed.

Lemma attach_parent_deleted parent type_ w :
  type_ ∈ ALLOWED →
  truthy (is_active (tenant_obj w)) = true →
  is_deleted parent = true →
  attach parent type_ w
  = (Raised (bad_request RC (deleted_text (name (tenant_obj w)))),
     logged (parent_deleted_log (parent_id parent)) w).
Proof.
  intros Hin Hact Hdel. unfold add_to_parent_map.
  rewrite bool_decide_eq_true_2 by done. simpl.
  unfold mbind, M_bind, tenant_attr. by rewrite Hact, Hdel.
Qed.

Lemma attach_already_has parent type_ w :
  type_ ∈ ALLOWED →
  truthy (is_active (tenant_obj w)) = true →
  is_deleted parent = false →
  is_Some (parent_map (tenant_obj w) !! type_) →
  attach parent type_ w
  = (Raised (bad_request RC (already_has_text (name (tenant_obj w)) type_)),
     logged (already_has_text (name (tenant_obj w)) type_) w).
Proof.
  intros Hin Hact Hdel Hset. unfold add_to_parent_map.
  rewrite bool_decide_eq_true_2 by done. simpl.
  unfold mbind, M_bind, tenant_attr. rewrite Hact, Hdel. simpl.
  by rewrite bool_decide_eq_true_2.
Qed.

Lemma attach_updates parent type_ w :
  type_ ∈ ALLOWED →
  truthy (is_active (tenant_obj w)) = true →
  is_deleted parent = false →
  parent_map (tenant_obj w) !! type_ = None →
  attach parent type_ w
  = (update [parent_map_set
               (<[type_ := parent_id parent]> (parent_map (tenant_obj w)))];;
     tenant_attr id) w.
Proof.
  intros Hin Hact Hdel Hfree. unfold add_to_parent_map.
  rewrite bool_decide_eq_true_2 by done. simpl.
  unfold mbind at 1, M_bind at 1, tenant_attr at 1. rewrite Hact, Hdel. simpl.
  unfold mbind at 1, M_bind at 1, tenant_attr at 1.
  rewrite bool_decide_eq_false_2; [done|].
  rewrite Hfree. by intros [? ?].
Qed.

(** Whatever guard fails, nothing is mutated. *)
Lemma attach_raises_unchanged parent type_ w e w' :
  attach parent type_ w = (Raised e, w') → unchanged w w'.
Proof.
  destruct (decide (type_ ∈ ALLOWED)) as [Hin|Hno];
    [|rewrite attach_unsupported by done; intros [= _ <-];
      apply logged_unchanged].
  destruct (truthy (is_active (tenant_obj w))) eqn:Hact;
    [|rewrite attach_not_active by done; intros [= _ <-];
      apply logged_unchanged].
  destruct (is_deleted parent) eqn:Hdel;
    [rewrite attach_parent_deleted by done; intros [= _ <-];
      apply logged_unchanged|].
  destruct (parent_map (tenant_obj w) !! type_) as [p|] eqn:Hset.
  - rewrite attach_already_has by (rewrite ?Hset; eauto).
    intros [= _ <-]. apply logged_unchanged.
  - rewrite attach_updates by done. discriminate.
Qed.

(** The world a successful attach leaves behind. *)
Lemma attach_returns parent type_ w :
  type_ ∈ ALLOWED →
  truthy (is_active (tenant_obj w)) = true →
  is_deleted parent = false →
  parent_map (tenant_obj w) !! type_ = None →
  let key := name (tenant_obj w) in
  let new_map := <[type_ := parent_id parent]> (parent_map (tenant_obj w)) in
  let item := set_parent_map new_map (default (tenant_obj w) (table w !! key)) in
  attach parent type_ w
  = (Returned item,
     {| tenant_obj := item; table := <[key := item]> (table w);
        updates := updates w ++ [(key, [parent_map_set new_map])];
        warnings := warnings w |}).
Proof. intros Hin Hact Hdel Hfree. by rewrite attach_updates. Qed.

(** A successful attach had all four guards pass. *)
Lemma attach_returned_inv parent type_ w t w' :
  attach parent type_ w = (Returned t, w') →
  type_ ∈ ALLOWED ∧ truthy (is_active (tenant_obj w)) = true
  ∧ is_deleted parent = false ∧ parent_map (tenant_obj w) !! type_ = None.
Proof.
  destruct (decide (type_ ∈ ALLOWED)) as [Hin|Hno];
    [|by rewrite attach_unsupported].
  destruct (truthy (is_active (tenant_obj w))) eqn:Hact;
    [|by rewrite attach_not_active].
  destruct (is_deleted parent) eqn:Hdel;
    [by rewrite attach_parent_deleted|].
  destruct (parent_map (tenant_obj w) !! type_) as [p|] eqn:Hset; [|done].
  by rewrite attach_already_has by (rewrite ?Hset; eauto).
Qed.

(** After a successful attach the slot is set in the tenant object. *)
Lemma attach_sets_slot parent type_ w t w' :
  attach parent type_ w = (Returned t, w') →
  is_Some (parent_map (tenant_obj w') !! type_).
Proof.
  intros Hrun.
  pose proof (attach_returned_inv _ _ _ _ _ Hrun) as (Hin & Hact & Hdel & Hfree).
  rewrite attach_returns in Hrun by done. injection Hrun as _ <-. simpl.
  rewrite lookup_insert_eq. eauto.
Qed.

(** C1, as the code has it.  An attach that passes all preconditions sends
    one update request with one action, a SET of the whole linkage map to
    the in-memory map with the target stored under the linkage type.  The
    stored map becomes that map: the keys of the in-memory copy other than
    the linkage type keep their in-memory values, and what the store held
    under keys the copy lacks is overwritten.  Items under other hash keys
    are not touched. *)
Theorem add_to_parent_map_sets_whole_map parent type_ w :
  type_ ∈ ALLOWED →
  truthy (is_active (tenant_obj w)) = true →
  is_deleted parent = false →
  parent_map (tenant_obj w) !! type_ = None →
  let key := name (tenant_obj w) in
  let new_map := <[type_ := parent_id parent]> (parent_map (tenant_obj w)) in
  ∃ w', attach parent type_ w = (Returned (tenant_obj w'), w')
    ∧ updates w' = (updates w ++ [(key, [parent_map_set new_map])])%list
    ∧ parent_map (tenant_obj w') = new_map
    ∧ parent_map <$> table w' !! key = Some new_map
    ∧ stored_parent_map w' key !! type_ = Some (parent_id parent)
    ∧ (∀ k, k ≠ type_ →
         stored_parent_map w' key !! k = parent_map (tenant_obj w) !! k)
    ∧ (∀ k, k ≠ key → table w' !! k = table w !! k).
Proof.
  intros Hin Hact Hdel Hfree key new_map.
  exists (attach parent type_ w).2.
  rewrite attach_returns by done. split; [done|]. simpl.
  fold key new_map. unfold stored_parent_map; simpl.
  rewrite lookup_insert_eq; simpl.
  repeat split.
  - apply lookup_insert_eq.
  - intros k Hk. unfold new_map. by rewrite lookup_insert_ne.
  - intros k Hk. by rewrite lookup_insert_ne.
Qed.

(** C4.  On an active tenant whose linkage map already holds an allow-listed
    type, in particular after a successful attach of that type with no
    detach in between, an attach of the type to a parent that is not deleted
    raises the already-has-linkage exception and mutates nothing: the tenant
    object, hence its linkage map, the stored table and the update requests
    are those of before the call.  The text of the exception is not that of
    any other failure of attach. *)
Theorem add_to_parent_map_already_set parent type_ w :
  type_ ∈ ALLOWED →
  truthy (is_active (tenant_obj w)) = true →
  is_deleted parent = false →
  let raised :=
    Raised (bad_request RC (already_has_text (name (tenant_obj w)) type_)) in
  (is_Some (parent_map (tenant_obj w) !! type_) →
   ∃ w', attach parent type_ w = (raised, w')
     ∧ unchanged w w'
     ∧ parent_map (tenant_obj w') = parent_map (tenant_obj w))
  ∧ (∀ parent1 w0 t1, attach parent1 type_ w0 = (Returned t1, w) →
     ∃ w', attach parent type_ w = (raised, w')
       ∧ unchanged w w'
       ∧ parent_map (tenant_obj w') = parent_map (tenant_obj w))
  ∧ ∀ n t, already_has_text n t ≠ unsupported_type_text ALLOWED t
           ∧ already_has_text n t ≠ not_active_text n
           ∧ already_has_text n t ≠ deleted_text n.
Proof.
  intros Hin Hact Hdel raised.
  assert (is_Some (parent_map (tenant_obj w) !! type_) →
          ∃ w', attach parent type_ w = (raised, w')
            ∧ unchanged w w'
            ∧ parent_map (tenant_obj w') = parent_map (tenant_obj w)) as Hset.
  { intros Hslot. eexists. split; [by apply attach_already_has|].
    split; [apply logged_unchanged|done]. }
  split; [exact Hset|]. split.
  - intros parent1 w0 t1 Hfirst. apply Hset. by eapply attach_sets_slot.
  - intros n t. unfold already_has_text, unsupported_type_text,
      not_active_text, deleted_text.
    repeat split; [discriminate| |].
    + intros Heq. simpl in Heq. injection Heq as Heq.
      induction n as [|c n IH]; simpl in Heq; [discriminate|].
      injection Heq as Heq. by apply IH.
    + intros Heq. simpl in Heq. injection Heq as Heq.
      induction n as [|c n IH]; simpl in Heq; [discriminate|].
      injection Heq as Heq. by apply IH.
Qed.

(** C5.  For a linkage type outside the allow-list the attach raises the
    unsupported-type exception, whatever the state of the tenant, of the
    parent and of the linkage map (the allow-list is the first guard), and
    mutates nothing: the tenant object and the table are unchanged and no
    update request is sent.  Its text is not that of any other failure. *)
Theorem add_to_parent_map_invalid_type parent type_ w :
  type_ ∉ ALLOWED →
  ∃ w', attach parent type_ w
        = (Raised (bad_request RC (unsupported_type_text ALLOWED type_)), w')
    ∧ unchanged w w'
    ∧ parent_map (tenant_obj w') = parent_map (tenant_obj w)
    ∧ ∀ n t, unsupported_type_text ALLOWED type_ ≠ not_active_text n
             ∧ unsupported_type_text ALLOWED type_ ≠ deleted_text n
             ∧ unsupported_type_text ALLOWED type_ ≠ already_has_text n t.
Proof.
  intros Hno. eexists. split; [by apply attach_unsupported|].
  split; [apply logged_unchanged|]. split; [done|].
  intros n t. repeat split; discriminate.
Qed.

End Linkage.

(** Detach on an inactive tenant returns at the first guard. *)
Lemma detach_inactive type_ w :
  truthy (is_active (tenant_obj w)) = false →
  remove_from_parent_map type_ w
  = (Returned (tenant_obj w), logged (not_active_text (name (tenant_obj w))) w).
Proof.
  intros Hact. unfold remove_from_parent_map, mbind, M_bind, tenant_attr.
  by rewrite Hact.
Qed.

(** Detach on an active tenant sends the single-key removal. *)
Lemma detach_active type_ w :
  truthy (is_active (tenant_obj w)) = true →
  remove_from_parent_map type_ w
  = (update [parent_map_key_remove type_];; tenant_attr id) w.
Proof.
  intros Hact. unfold remove_from_parent_map.
  unfold mbind at 1, M_bind at 1, tenant_attr at 1. by rewrite Hact.
Qed.

Lemma unchanged_trans w1 w2 w3 :
  unchanged w1 w2 → unchanged w2 w3 → unchanged w1 w3.
Proof. intros (?&?&?) (?&?&?). repeat split; congruence. Qed.

Lemma detach_each_inactive types w :
  is_active (tenant_obj w) = Some false →
  ∃ w', detach_each types w = (Returned tt, w') ∧ unchanged w w'.
Proof.
  revert w. induction types as [|type_ rest IH]; intros w Hact.
  - exists w. by repeat split.
  - simpl. unfold mbind at 1, M_bind at 1.
    rewrite detach_inactive by (by rewrite Hact).
    destruct (IH (logged (not_active_text (name (tenant_obj w))) w))
      as (w' & Hrun & Hsame); [done|].
    exists w'. split; [done|].
    eapply unchanged_trans; [apply logged_unchanged|done].
Qed.

(** C6.  On a tenant whose [is_active] is false, detach of any linkage type
    returns the tenant as it is, raises nothing and sends no update; any
    sequence of such calls leaves the tenant object, hence its linkage map,
    the stored table and the list of update requests as they were. *)
Theorem remove_from_parent_map_inactive types w :
  is_active (tenant_obj w) = Some false →
  (∀ type_, ∃ w', remove_from_parent_map type_ w = (Returned (tenant_obj w), w')
                  ∧ unchanged w w')
  ∧ ∃ w', detach_each types w = (Returned tt, w')
          ∧ unchanged w w'
          ∧ parent_map (tenant_obj w') = parent_map (tenant_obj w)
          ∧ updates w' = updates w.
Proof.
  intros Hact. split.
  - intros type_. eexists. split; [apply detach_inactive; by rewrite Hact|].
    apply logged_unchanged.
  - destruct (detach_each_inactive types w Hact) as (w' & Hrun & Hsame).
    exists w'. split; [done|]. split; [done|].
    destruct Hsame as (-> & _ & ->). done.
Qed.

(** *** The scenarios of the specification *)

Example attach_scenario :
  add_to_parent_map 400 allowed_types parent_P1 "TENANT_MANAGER" fresh_world
  = (Returned (tenant_obj attached_world), attached_world)
  ∧ parent_map (tenant_obj attached_world) = {["TENANT_MANAGER" := "P1"]}
  ∧ stored_parent_map attached_world "T1" = {["TENANT_MANAGER" := "P1"]}
  ∧ updates attached_world
    = [("T1", [parent_map_set {["TENANT_MANAGER" := "P1"]}])].
Proof. repeat split; vm_compute; reflexivity. Qed.

Example detach_scenario :
  ∃ w', remove_from_parent_map "TENANT_MANAGER" attached_world
        = (Returned (tenant_obj w'), w')
    ∧ parent_map (tenant_obj w') = ∅
    ∧ updates w'
      = [("T1", [parent_map_set {["TENANT_MANAGER" := "P1"]}]);
         ("T1", [parent_map_key_remove "TENANT_MANAGER"])].
Proof.
  exists (remove_from_parent_map "TENANT_MANAGER" attached_world).2.
  repeat split; vm_compute; reflexivity.
Qed.

Lemma add_to_parent_map_sets_whole_map_witness :
  "CUSTODIAN" ∈ allowed_types
  ∧ truthy (is_active (tenant_obj attached_world)) = true
  ∧ is_deleted parent_P1 = false
  ∧ parent_map (tenant_obj attached_world) !! "CUSTODIAN" = None
  ∧ ∃ w', add_to_parent_map 400 allowed_types parent_P1 "CUSTODIAN"
            attached_world = (Returned (tenant_obj w'), w')
      ∧ stored_parent_map w' "T1" !! "CUSTODIAN" = Some "P1"
      ∧ stored_parent_map w' "T1" !! "TENANT_MANAGER" = Some "P1".
Proof.
  assert ("CUSTODIAN" ∈ allowed_types) as Hin by compute_done.
  assert (truthy (is_active (tenant_obj attached_world)) = true) as Hact
    by (vm_compute; reflexivity).
  assert (is_deleted parent_P1 = false) as Hdel by reflexivity.
  assert (parent_map (tenant_obj attached_world) !! "CUSTODIAN" = None)
    as Hfree by (vm_compute; reflexivity).
  repeat (split; [assumption|]).
  destruct (add_to_parent_map_sets_whole_map 400 allowed_types parent_P1
              "CUSTODIAN" attached_world Hin Hact Hdel Hfree)
    as (w' & Hrun & _ & _ & _ & Hslot & Hothers & _).
  exists w'. split; [exact Hrun|]. split; [exact Hslot|].
  rewrite Hothers by discriminate. vm_compute; reflexivity.
Defined.

(** C1, refuted as stated.  Tenant [T1] was read with an empty linkage map;
    meanwhile the store received a [CUSTODIAN] linkage for it.  The attach
    of [TENANT_MANAGER] passes every precondition, and the stored
    [CUSTODIAN] key is gone afterwards. *)
Lemma add_to_parent_map_overwrites_stored_key :
  "TENANT_MANAGER" ∈ allowed_types
  ∧ truthy (is_active (tenant_obj stale_world)) = true
  ∧ is_deleted parent_P1 = false
  ∧ parent_map (tenant_obj stale_world) !! "TENANT_MANAGER" = None
  ∧ stored_parent_map stale_world "T1" !! "CUSTODIAN" = Some "P0"
  ∧ stored_parent_map
      (add_to_parent_map 400 allowed_types parent_P1 "TENANT_MANAGER"
         stale_world).2 "T1" !! "CUSTODIAN" = None
  ∧ ¬ single_key_update 400 allowed_types parent_P1 "TENANT_MANAGER"
        stale_world.
Proof.
  split; [compute_done|].
  do 5 (split; [vm_compute; reflexivity|]).
  intros [_ Hframe]. specialize (Hframe "CUSTODIAN").
  vm_compute in Hframe. by specialize (Hframe ltac:(discriminate)).
Qed.

Lemma add_to_parent_map_already_set_witness :
  "TENANT_MANAGER" ∈ allowed_types
  ∧ truthy (is_active (tenant_obj attached_world)) = true
  ∧ is_deleted parent_P1 = false
  ∧ add_to_parent_map 400 allowed_types parent_P1 "TENANT_MANAGER" fresh_world
    = (Returned (tenant_obj attached_world), attached_world)
  ∧ ∃ w', add_to_parent_map 400 allowed_types parent_P1 "TENANT_MANAGER"
            attached_world
          = (Raised (bad_request 400
               "Tenant 'T1' already has 'TENANT_MANAGER' linkage type."), w')
      ∧ parent_map (tenant_obj w') = {["TENANT_MANAGER" := "P1"]}.
Proof.
  assert ("TENANT_MANAGER" ∈ allowed_types) as Hin by compute_done.
  assert (truthy (is_active (tenant_obj attached_world)) = true) as Hact
    by (vm_compute; reflexivity).
  assert (is_deleted parent_P1 = false) as Hdel by reflexivity.
  assert (add_to_parent_map 400 allowed_types parent_P1 "TENANT_MANAGER"
            fresh_world
          = (Returned (tenant_obj attached_world), attached_world)) as Hfirst
    by (vm_compute; reflexivity).
  do 4 (split; [assumption|]).
  destruct (add_to_parent_map_already_set 400 allowed_types parent_P1
              "TENANT_MANAGER" attached_world Hin Hact Hdel)
    as (_ & Hsecond & _).
  destruct (Hsecond parent_P1 fresh_world _ Hfirst) as (w' & Hrun & _ & Hmap).
  exists w'. split; [exact Hrun|]. rewrite Hmap. vm_compute; reflexivity.
Defined.

Lemma add_to_parent_map_invalid_type_witness :
  ("TENANT_OWNER" ∉ allowed_types)
  ∧ ∃ w', add_to_parent_map 400 allowed_types parent_P2 "TENANT_OWNER"
            inactive_world
          = (Raised (bad_request 400
               "Unsupported type 'TENANT_OWNER'. Available options: TENANT_MANAGER, CUSTODIAN"),
             w')
      ∧ unchanged inactive_world w'.
Proof.
  assert ("TENANT_OWNER" ∉ allowed_types) as Hno by compute_done.
  split; [exact Hno|].
  destruct (add_to_parent_map_invalid_type 400 allowed_types parent_P2
              "TENANT_OWNER" inactive_world Hno)
    as (w' & Hrun & Hsame & _).
  exists w'. split; [exact Hrun|exact Hsame].
Defined.

Lemma remove_from_parent_map_inactive_witness :
  is_active (tenant_obj inactive_world) = Some false
  ∧ ∃ w', detach_each ["CUSTODIAN"; "CUSTODIAN"; "TENANT_MANAGER"]
            inactive_world = (Returned tt, w')
      ∧ parent_map (tenant_obj w') = {["CUSTODIAN" := "P0"]}
      ∧ updates w' = [].
Proof.
  assert (is_active (tenant_obj inactive_world) = Some false) as Hact
    by reflexivity.
  split; [exact Hact|].
  destruct (remove_from_parent_map_inactive
              ["CUSTODIAN"; "CUSTODIAN"; "TENANT_MANAGER"] inactive_world Hact)
    as (_ & w' & Hrun & _ & Hmap & Hupd).
  exists w'. split; [exact Hrun|]. split; [|exact Hupd].
  rewrite Hmap. reflexivity.
Defined.

(** ** The projection *)

Lemma region_kept_entry fields :
  is_region_entry (JObj fields) = true →
  region_kept (JObj fields)
  = Ok (bool_decide (is_Some (shown_name (JObj fields)))).
Proof.
  unfold is_region_entry, region_kept, shown_name, activity, contains,
    get_method, dict_get.
  destruct (fields !! "maestro_name") as [shown|] eqn:Hname;
    destruct (fields !! "is_active") as [[| [|] | | | |]|] eqn:Hflag;
    simpl; try discriminate; intros _; reflexivity.
Qed.

(** On typed regions the comprehension does not raise and yields the names
    of the entries that carry one and are not flagged false. *)
Lemma display_names_typed regions :
  forallb is_region_entry regions = true →
  display_names regions = Ok (shown_regions regions).
Proof.
  induction regions as [|each rest IH]; [done|].
  intros [Heach Hrest]%andb_true_iff. specialize (IH Hrest).
  destruct each as [| | | | |fields]; try discriminate.
  unfold shown_regions in *.
  change (omap shown_name (JObj fields :: rest))
    with (match shown_name (JObj fields) with
          | Some shown => shown :: omap shown_name rest
          | None => omap shown_name rest
          end).
  cbn [display_names]. unfold mbind at 1, Result_bind at 1.
  rewrite region_kept_entry by done.
  destruct (shown_name (JObj fields)) as [shown|] eqn:Hshown.
  - rewrite bool_decide_eq_true_2 by eauto.
    assert (fields !! "maestro_name" = Some shown) as Hname.
    { simpl in Hshown. by destruct (activity fields). }
    unfold getitem. by rewrite Hname, IH.
  - by rewrite bool_decide_eq_false_2 by (by intros [? ?]).
Qed.

(** What [get_dto] returns once the comprehension has succeeded. *)
Lemma get_dto_lookup tenant_json items shown :
  iterate (py_or (dict_get tenant_json "regions") (JList [])) = Ok items →
  display_names items = Ok shown →
  ∃ dto, get_dto tenant_json = Ok dto
    ∧ dto !! "account_id" = Some (dict_get tenant_json "project")
    ∧ dto !! "project" = None
    ∧ dto !! "regions" = Some (JList shown)
    ∧ ∀ k, k ≠ "project" → k ≠ "account_id" → k ≠ "regions" →
           dto !! k = tenant_json !! k.
Proof.
  intros Hitems Hshown. unfold get_dto.
  rewrite Hitems. simpl. rewrite Hshown. simpl.
  eexists. split; [reflexivity|]. repeat split.
  - by rewrite lookup_insert_ne, lookup_insert_eq.
  - by rewrite !lookup_insert_ne, lookup_delete_eq.
  - by rewrite lookup_insert_eq.
  - intros k Hp Ha Hr. by rewrite !lookup_insert_ne, lookup_delete_ne.
Qed.

Lemma regions_absent tenant_json :
  tenant_json !! "regions" = None ∨ tenant_json !! "regions" = Some JNull →
  py_or (dict_get tenant_json "regions") (JList []) = JList [].
Proof. unfold dict_get. by intros [-> | ->]. Qed.

Lemma regions_listed tenant_json regions :
  tenant_json !! "regions" = Some (JList regions) →
  py_or (dict_get tenant_json "regions") (JList []) = JList regions.
Proof. unfold dict_get. intros ->. by destruct regions. Qed.

(** On a typed dictionary the comprehension ranges over its region entries. *)
Lemma typed_regions tenant_json :
  regions_typed tenant_json = true →
  iterate (py_or (dict_get tenant_json "regions") (JList []))
  = Ok (regions_of tenant_json)
  ∧ forallb is_region_entry (regions_of tenant_json) = true.
Proof.
  unfold regions_typed, regions_of.
  destruct (tenant_json !! "regions") as [[| | | |regions|]|] eqn:Hregions;
    try discriminate; intros Htyped.
  - by rewrite regions_absent by auto.
  - by rewrite (regions_listed _ regions).
  - by rewrite regions_absent by auto.
Qed.

(** C7.  On every typed tenant dictionary the projection returns; it moves
    the value of [project] to the key [account_id], and its [regions] are
    exactly the display names, in order, of the region entries that carry a
    [maestro_name] and whose [is_active] is not explicitly false: an entry
    flagged true, flagged null or without flag is included, an entry flagged
    false is excluded.  The other keys are kept. *)
Theorem get_dto_projection tenant_json :
  regions_typed tenant_json = true →
  (∃ dto, get_dto tenant_json = Ok dto
     ∧ dto !! "account_id" = Some (dict_get tenant_json "project")
     ∧ dto !! "project" = None
     ∧ dto !! "regions" = Some (JList (shown_regions (regions_of tenant_json)))
     ∧ ∀ k, k ≠ "project" → k ≠ "account_id" → k ≠ "regions" →
            dto !! k = tenant_json !! k)
  ∧ (∀ shown, shown ∈ shown_regions (regions_of tenant_json) ↔
       ∃ fields, JObj fields ∈ regions_of tenant_json
                 ∧ fields !! "maestro_name" = Some shown
                 ∧ fields !! "is_active" ≠ Some (JBool false))
  ∧ (∀ fields shown, fields !! "maestro_name" = Some shown →
       (fields !! "is_active" = Some (JBool true) →
        shown_name (JObj fields) = Some shown)
       ∧ (fields !! "is_active" = None →
          shown_name (JObj fields) = Some shown)
       ∧ (fields !! "is_active" = Some (JBool false) →
          shown_name (JObj fields) = None)).
Proof.
  intros Htyped. split; [|split].
  - destruct (typed_regions _ Htyped) as [Hitems Hentries].
    apply (get_dto_lookup tenant_json (regions_of tenant_json)); [done|].
    by apply display_names_typed.
  - intros shown. unfold shown_regions. rewrite list_elem_of_omap. split.
    + intros (each & Hin & Hshown).
      destruct each as [| | | | |fields]; try discriminate.
      exists fields. split; [done|]. simpl in Hshown. unfold activity in Hshown.
      split; [|intros Hflag; by rewrite Hflag in Hshown].
      by destruct (fields !! "is_active") as [[| [|] | | | |]|].
    + intros (fields & Hin & Hname & Hflag). exists (JObj fields).
      split; [done|]. simpl. unfold activity.
      by destruct (fields !! "is_active") as [[| [|] | | | |]|].
  - intros fields shown Hname. unfold shown_name, activity.
    repeat split; by intros ->.
Qed.

Lemma get_dto_projection_witness :
  regions_typed tenant_json_T1 = true
  ∧ ∃ dto, get_dto tenant_json_T1 = Ok dto
      ∧ dto !! "account_id" = Some (JStr "acc-1")
      ∧ dto !! "project" = None
      ∧ dto !! "regions"
        = Some (JList [JStr "EU_WEST"; JStr "US_EAST"; JStr "AP_SOUTH"])
      ∧ dto !! "name" = Some (JStr "T1").
Proof.
  assert (regions_typed tenant_json_T1 = true) as Htyped
    by (vm_compute; reflexivity).
  split; [exact Htyped|].
  destruct (get_dto_projection tenant_json_T1 Htyped)
    as ((dto & Hrun & Hacc & Hproj & Hreg & Hkeep) & _).
  exists dto. split; [exact Hrun|]. split; [rewrite Hacc; vm_compute; reflexivity|].
  split; [exact Hproj|]. split; [rewrite Hreg; vm_compute; reflexivity|].
  rewrite Hkeep by discriminate. vm_compute; reflexivity.
Defined.

(** C10.  The projection does not raise on missing optional fields.  When
    the dictionary has no [regions] key, or has it null, the projection
    returns and its [regions] is the empty list; when a dictionary with
    typed regions has no [project] key, the projection returns and its
    [account_id] is null. *)
Theorem get_dto_missing_fields tenant_json :
  (tenant_json !! "regions" = None ∨ tenant_json !! "regions" = Some JNull →
   ∃ dto, get_dto tenant_json = Ok dto
     ∧ dto !! "regions" = Some (JList [])
     ∧ dto !! "account_id" = Some (dict_get tenant_json "project"))
  ∧ (tenant_json !! "project" = None →
     regions_typed tenant_json = true →
     ∃ dto, get_dto tenant_json = Ok dto
       ∧ dto !! "account_id" = Some JNull).
Proof.
  split.
  - intros Habsent.
    destruct (get_dto_lookup tenant_json [] [])
      as (dto & Hrun & Hacc & _ & Hreg & _);
      [by rewrite regions_absent|done|].
    by exists dto.
  - intros Hproject Htyped.
    destruct (typed_regions _ Htyped) as [Hitems Hentries].
    destruct (get_dto_lookup tenant_json (regions_of tenant_json)
                (shown_regions (regions_of tenant_json)))
      as (dto & Hrun & Hacc & _); [done|by apply display_names_typed|].
    exists dto. split; [done|]. rewrite Hacc. unfold dict_get.
    by rewrite Hproject.
Qed.

Lemma get_dto_missing_fields_witness :
  (∃ dto, get_dto {["name" := JStr "T1"]} = Ok dto
     ∧ dto !! "regions" = Some (JList [])
     ∧ dto !! "account_id" = Some JNull)
  ∧ (∃ dto, get_dto (delete "project" tenant_json_T1) = Ok dto
       ∧ dto !! "account_id" = Some JNull).
Proof.
  destruct (get_dto_missing_fields {["name" := JStr "T1"]}) as [Hregions _].
  destruct (get_dto_missing_fields (delete "project" tenant_json_T1))
    as [_ Hproject].
  split.
  - destruct Hregions as (dto & Hrun & Hreg & Hacc);
      [left; vm_compute; reflexivity|].
    exists dto. split; [exact Hrun|]. split; [exact Hreg|].
    rewrite Hacc. vm_compute; reflexivity.
  - apply Hproject; vm_compute; reflexivity.
Defined.

(** Outside the typed dictionaries the expressions of the projection can
    raise: a null entry in [regions] is not a container, and a number is not
    iterable. *)
Example get_dto_untyped :
  get_dto {["regions" := JList [JNull]]} = Fails TypeError
  ∧ get_dto {["regions" := JNum 3]} = Fails TypeError
  ∧ get_dto {["regions" := JList [JStr "maestro_name"]]} = Fails AttributeError
  ∧ (∃ dto, get_dto {["regions" := JStr "eu"]} = Ok dto
       ∧ dto !! "regions" = Some (JList [])).
Proof.
  repeat split; try (vm_compute; reflexivity).
  eexists. split; vm_compute; reflexivity.
Qed.

(** * Further properties of the service *)

(** ** The guards of attach *)

Section Attach.

Context (RC : Z) (ALLOWED : list string).

Local Abbreviation attach := (add_to_parent_map RC ALLOWED).

(** X1.  Attach returns normally exactly when its four preconditions hold:
    the type is allow-listed, the tenant is active, the parent is not
    deleted and the slot is free. *)
Theorem add_to_parent_map_returns_iff parent type_ w :
  (∃ t w', attach parent type_ w = (Returned t, w'))
  ↔ type_ ∈ ALLOWED
    ∧ truthy (is_active (tenant_obj w)) = true
    ∧ is_deleted parent = false
    ∧ parent_map (tenant_obj w) !! type_ = None.
Proof.
  split.
  - intros (t & w' & Hrun). by eapply attach_returned_inv.
  - intros (Hin & Hact & Hdel & Hfree).
    rewrite attach_returns by done. eauto.
Qed.

(** X2.  With an allow-listed type the activity of the tenant is checked
    before the parent and the slot.  A tenant whose [is_active] is false or
    unset fails with the not-active text whatever the parent; an active
    tenant with a deleted parent fails whatever the slot, with a text that
    names the tenant as deleted while the warning names the parent.  Neither
    failure mutates anything. *)
Theorem add_to_parent_map_guard_order parent type_ w :
  type_ ∈ ALLOWED →
  (is_active (tenant_obj w) ≠ Some true →
   ∃ w', attach parent type_ w
         = (Raised (bad_request RC (not_active_text (name (tenant_obj w)))), w')
     ∧ unchanged w w')
  ∧ (is_active (tenant_obj w) = Some true →
     is_deleted parent = true →
     ∃ w', attach parent type_ w
           = (Raised (bad_request RC (deleted_text (name (tenant_obj w)))), w')
       ∧ unchanged w w'
       ∧ warnings w'
         = (warnings w ++ [parent_deleted_log (parent_id parent)])%list).
Proof.
  intros Hin. split.
  - intros Hoff. eexists. split; [|apply logged_unchanged].
    apply attach_not_active; [done|].
    by destruct (is_active (tenant_obj w)) as [[|]|].
  - intros Hon Hdel. eexists. split; [|split; [apply logged_unchanged|done]].
    apply attach_parent_deleted; [done| |done]. by rewrite Hon.
Qed.

(** X3.  Every exception attach raises carries the bad-request code, and a
    failing call logs exactly one warning; a successful call logs none and
    sends exactly one update request. *)
Theorem add_to_parent_map_bad_request parent type_ w :
  (∀ e w', attach parent type_ w = (Raised e, w') →
     code e = RC ∧ ∃ line, w' = logged line w)
  ∧ (∀ t w', attach parent type_ w = (Returned t, w') →
       warnings w' = warnings w
       ∧ List.length (updates w') = S (List.length (updates w))).
Proof.
  split.
  - intros e w'.
    destruct (decide (type_ ∈ ALLOWED)) as [Hin|Hno];
      [|rewrite attach_unsupported by done; intros [= <- <-]; eauto].
    destruct (truthy (is_active (tenant_obj w))) eqn:Hact;
      [|rewrite attach_not_active by done; intros [= <- <-]; eauto].
    destruct (is_deleted parent) eqn:Hdel;
      [rewrite attach_parent_deleted by done; intros [= <- <-]; eauto|].
    destruct (parent_map (tenant_obj w) !! type_) as [p|] eqn:Hset.
    + rewrite attach_already_has by (rewrite ?Hset; eauto).
      intros [= <- <-]; eauto.
    + by rewrite attach_returns.
  - intros t w' Hrun.
    pose proof (attach_returned_inv _ _ _ _ _ _ _ Hrun)
      as (Hin & Hact & Hdel & Hfree).
    rewrite attach_returns in Hrun by done. injection Hrun as _ <-. simpl.
    split; [done|]. rewrite length_app. simpl. lia.
Qed.

End Attach.

Lemma add_to_parent_map_guard_order_witness :
  "CUSTODIAN" ∈ allowed_types
  ∧ (∃ w', add_to_parent_map 400 allowed_types parent_P2 "CUSTODIAN"
             inactive_world
           = (Raised (bad_request 400 "Tenant 'T2' is not active."), w'))
  ∧ (∃ w', add_to_parent_map 400 allowed_types parent_P2 "CUSTODIAN"
             linked_world
           = (Raised (bad_request 400 "Tenant 'T1' is deleted."), w')
       ∧ warnings w' = ["Parent 'P2' is deleted."]).
Proof.
  assert ("CUSTODIAN" ∈ allowed_types) as Hin by compute_done.
  split; [exact Hin|]. split.
  - destruct (add_to_parent_map_guard_order 400 allowed_types parent_P2
                "CUSTODIAN" inactive_world Hin) as [Hoff _].
    destruct Hoff as (w' & Hrun & _); [simpl; discriminate|].
    exists w'. exact Hrun.
  - destruct (add_to_parent_map_guard_order 400 allowed_types parent_P2
                "CUSTODIAN" linked_world Hin) as [_ Hon].
    destruct Hon as (w' & Hrun & _ & Hlog); [reflexivity|reflexivity|].
    exists w'. split; [exact Hrun|exact Hlog].
Defined.

(** ** Detach, and how attach and detach compose *)

Lemma set_parent_map_id t : set_parent_map (parent_map t) t = t.
Proof. by destruct t. Qed.

Lemma set_parent_map_twice m1 m2 t :
  set_parent_map m1 (set_parent_map m2 t) = set_parent_map m1 t.
Proof. done. Qed.

(** The world a detach on an active tenant leaves behind. *)
Lemma detach_returns type_ w :
  truthy (is_active (tenant_obj w)) = true →
  let key := name (tenant_obj w) in
  let stored_item := default (tenant_obj w) (table w !! key) in
  let item :=
    set_parent_map (delete type_ (parent_map stored_item)) stored_item in
  remove_from_parent_map type_ w
  = (Returned item,
     {| tenant_obj := item; table := <[key := item]> (table w);
        updates := updates w ++ [(key, [parent_map_key_remove type_])];
        warnings := warnings w |}).
Proof. intros Hact. by rewrite detach_active. Qed.

Lemma keyed_default table t :
  keyed table → name (default t (table !! name t)) = name t.
Proof.
  intros Hkeyed. destruct (table !! name t) as [item|] eqn:Hitem; [|done].
  by apply (map_Forall_lookup_1 _ _ _ _ Hkeyed) in Hitem.
Qed.

(** X4.  On an active tenant whose stored item holds the key, allow-listed
    or not, detach returns and sends one update request whose single action
    removes that one key.  In the stored item the key is gone afterwards and
    every other key of the stored map is as it was stored; items under other
    hash keys are untouched. *)
Theorem remove_from_parent_map_single_key type_ w item :
  truthy (is_active (tenant_obj w)) = true →
  table w !! name (tenant_obj w) = Some item →
  is_Some (parent_map item !! type_) →
  let key := name (tenant_obj w) in
  ∃ w', remove_from_parent_map type_ w = (Returned (tenant_obj w'), w')
    ∧ updates w' = (updates w ++ [(key, [parent_map_key_remove type_])])%list
    ∧ warnings w' = warnings w
    ∧ stored_parent_map w' key = delete type_ (parent_map item)
    ∧ stored_parent_map w' key !! type_ = None
    ∧ parent_map (tenant_obj w') !! type_ = None
    ∧ (∀ k, k ≠ type_ →
         stored_parent_map w' key !! k = stored_parent_map w key !! k)
    ∧ (∀ k, k ≠ key → table w' !! k = table w !! k).
Proof.
  intros Hact Hitem Hheld key.
  exists (remove_from_parent_map type_ w).2.
  rewrite detach_returns by done. fold key. split; [done|]. simpl.
  unfold stored_parent_map; simpl. fold key in Hitem.
  rewrite lookup_insert_eq, Hitem; simpl.
  repeat split.
  - apply lookup_delete_eq.
  - apply lookup_delete_eq.
  - intros k Hk. by rewrite lookup_delete_ne.
  - intros k Hk. by rewrite lookup_insert_ne.
Qed.

Lemma remove_from_parent_map_single_key_witness :
  truthy (is_active (tenant_obj legacy_world)) = true
  ∧ table legacy_world !! name (tenant_obj legacy_world) = Some legacy_T1
  ∧ is_Some (parent_map legacy_T1 !! "LEGACY")
  ∧ ("LEGACY" ∉ allowed_types)
  ∧ ∃ w', remove_from_parent_map "LEGACY" legacy_world
          = (Returned (tenant_obj w'), w')
      ∧ stored_parent_map w' "T1" = {["CUSTODIAN" := "P0"]}.
Proof.
  assert (truthy (is_active (tenant_obj legacy_world)) = true) as Hact
    by reflexivity.
  assert (table legacy_world !! name (tenant_obj legacy_world)
          = Some legacy_T1) as Hitem by (vm_compute; reflexivity).
  assert (is_Some (parent_map legacy_T1 !! "LEGACY")) as Hheld
    by (vm_compute; eauto).
  do 3 (split; [assumption|]). split; [compute_done|].
  destruct (remove_from_parent_map_single_key "LEGACY" legacy_world legacy_T1
              Hact Hitem Hheld)
    as (w' & Hrun & _ & _ & Hstored & _).
  exists w'. split; [exact Hrun|].
  change (name (tenant_obj legacy_world)) with "T1" in Hstored.
  rewrite Hstored. vm_compute; reflexivity.
Defined.

(** X5.  Detach is idempotent: on a table keyed by name whose item for the
    tenant holds the key, a second detach of the same type returns the same
    tenant and leaves the tenant object and the table as the first one left
    them. *)
Theorem remove_from_parent_map_idempotent type_ w item :
  keyed (table w) →
  table w !! name (tenant_obj w) = Some item →
  is_Some (parent_map item !! type_) →
  ∃ t w1 w2,
    remove_from_parent_map type_ w = (Returned t, w1)
    ∧ remove_from_parent_map type_ w1 = (Returned t, w2)
    ∧ tenant_obj w2 = tenant_obj w1
    ∧ table w2 = table w1.
Proof.
  intros Hkeyed Hitem Hheld.
  pose proof (keyed_default _ (tenant_obj w) Hkeyed) as Hname.
  destruct (truthy (is_active (tenant_obj w))) eqn:Hact.
  - rewrite detach_returns by done.
    match goal with
    | |- ∃ _ _ _, (Returned ?t, ?w1) = _ ∧ _ =>
        exists t, w1;
        destruct (truthy (is_active (tenant_obj w1))) eqn:Hact1
    end.
    + eexists. split; [reflexivity|].
      rewrite detach_returns by done. simpl.
      rewrite Hname, lookup_insert_eq. simpl.
      rewrite delete_delete_eq, insert_insert_eq.
      split; [reflexivity|]. split; reflexivity.
    + eexists. split; [reflexivity|].
      rewrite detach_inactive by done.
      split; [reflexivity|]. split; reflexivity.
  - rewrite detach_inactive by done.
    eexists _, _, _. split; [reflexivity|].
    rewrite detach_inactive by done.
    split; [reflexivity|]. split; reflexivity.
Qed.

Lemma remove_from_parent_map_idempotent_witness :
  keyed (table legacy_world)
  ∧ table legacy_world !! name (tenant_obj legacy_world) = Some legacy_T1
  ∧ is_Some (parent_map legacy_T1 !! "CUSTODIAN")
  ∧ ∃ t w1 w2,
      remove_from_parent_map "CUSTODIAN" legacy_world = (Returned t, w1)
      ∧ remove_from_parent_map "CUSTODIAN" w1 = (Returned t, w2)
      ∧ tenant_obj w2 = tenant_obj w1
      ∧ table w2 = table w1.
Proof.
  assert (keyed (table legacy_world)) as Hkeyed by compute_done.
  assert (table legacy_world !! name (tenant_obj legacy_world)
          = Some legacy_T1) as Hitem by (vm_compute; reflexivity).
  assert (is_Some (parent_map legacy_T1 !! "CUSTODIAN")) as Hheld
    by (vm_compute; eauto).
  do 3 (split; [assumption|]).
  exact (remove_from_parent_map_idempotent "CUSTODIAN" legacy_world legacy_T1
           Hkeyed Hitem Hheld).
Defined.

Section Compose.

Context (RC : Z) (ALLOWED : list string).

Local Abbreviation attach := (add_to_parent_map RC ALLOWED).

(** X6.  Attach then detach is a round trip: when the tenant object is the
    stored item, a successful attach of a type followed by the detach of that
    type gives back the tenant object and the table of before the attach. *)
Theorem attach_detach_round_trip parent type_ w t1 w1 :
  in_sync w →
  attach parent type_ w = (Returned t1, w1) →
  ∃ w2, remove_from_parent_map type_ w1 = (Returned (tenant_obj w), w2)
    ∧ tenant_obj w2 = tenant_obj w
    ∧ table w2 = table w.
Proof.
  intros Hsync Hrun.
  pose proof (attach_returned_inv _ _ _ _ _ _ _ Hrun)
    as (Hin & Hact & Hdel & Hfree).
  rewrite attach_returns in Hrun by done. injection Hrun as _ <-.
  unfold in_sync in Hsync. rewrite Hsync. simpl.
  rewrite detach_returns by done. simpl.
  rewrite lookup_insert_eq. simpl.
  rewrite delete_insert_eq, (delete_id _ _ Hfree), set_parent_map_twice,
    set_parent_map_id, insert_insert_eq, (insert_id _ _ _ Hsync).
  eauto.
Qed.

(** X7.  A set slot is re-set by detaching first: on an active tenant that
    is the stored item, detach of an allow-listed type followed by an attach
    of that type to a parent that is not deleted succeeds, the slot holds the
    new parent in the object and in the store, and the other linkages of the
    tenant are kept. *)
Theorem detach_then_attach parent type_ w t1 w1 :
  in_sync w →
  type_ ∈ ALLOWED →
  truthy (is_active (tenant_obj w)) = true →
  is_deleted parent = false →
  remove_from_parent_map type_ w = (Returned t1, w1) →
  ∃ w2, attach parent type_ w1 = (Returned (tenant_obj w2), w2)
    ∧ parent_map (tenant_obj w2) !! type_ = Some (parent_id parent)
    ∧ stored_parent_map w2 (name (tenant_obj w)) !! type_
      = Some (parent_id parent)
    ∧ ∀ k, k ≠ type_ →
        parent_map (tenant_obj w2) !! k = parent_map (tenant_obj w) !! k.
Proof.
  intros Hsync Hin Hact Hdel Hrun.
  rewrite detach_returns in Hrun by done. injection Hrun as _ <-.
  unfold in_sync in Hsync. rewrite Hsync. simpl.
  match goal with
  | |- ∃ _, attach _ _ ?w1 = _ ∧ _ => exists (attach parent type_ w1).2
  end.
  rewrite attach_returns;
    [|done|done|done|simpl; apply lookup_delete_eq].
  simpl. rewrite lookup_insert_eq. simpl. split; [reflexivity|].
  unfold stored_parent_map. simpl. rewrite !lookup_insert_eq. simpl.
  rewrite lookup_insert_eq.
  split; [reflexivity|]. split; [reflexivity|].
  intros k Hk. by rewrite lookup_insert_ne, lookup_delete_ne.
Qed.

(** X8.  Linkage maps hold allow-listed keys only, and the service keeps it
    so: when the keys of the tenant object's map and of every stored map are
    allow-listed, they still are after any attach and after any detach,
    whether the call returns or raises. *)
Theorem linkage_allowed_preserved parent type_ w :
  linkage_allowed ALLOWED w →
  linkage_allowed ALLOWED (attach parent type_ w).2
  ∧ linkage_allowed ALLOWED (remove_from_parent_map type_ w).2.
Proof.
  intros [Hobj Htable].
  assert (keys_allowed ALLOWED
            (parent_map (default (tenant_obj w)
                           (table w !! name (tenant_obj w))))) as Hstored.
  { destruct (table w !! name (tenant_obj w)) as [item|] eqn:Hitem; [|done].
    apply (map_Forall_lookup_1 _ _ _ _ Htable Hitem). }
  split.
  - destruct (attach parent type_ w) as [[t|e] w'] eqn:Hrun.
    + pose proof (attach_returned_inv _ _ _ _ _ _ _ Hrun)
        as (Hin & Hact & Hdel & Hfree).
      rewrite attach_returns in Hrun by done. injection Hrun as _ <-.
      assert (keys_allowed ALLOWED
                (<[type_ := parent_id parent]> (parent_map (tenant_obj w))))
        by (by apply map_Forall_insert_2).
      split; simpl; [done|]. by apply map_Forall_insert_2.
    + apply attach_raises_unchanged in Hrun as (Hobj' & Htable' & _).
      split; simpl; by rewrite ?Hobj', ?Htable'.
  - destruct (truthy (is_active (tenant_obj w))) eqn:Hact.
    + rewrite detach_returns by done.
      assert (keys_allowed ALLOWED
                (delete type_
                   (parent_map (default (tenant_obj w)
                                  (table w !! name (tenant_obj w))))))
        by (by apply map_Forall_delete).
      split; simpl; [done|]. by apply map_Forall_insert_2.
    + by rewrite detach_inactive by done.
Qed.

End Compose.

Lemma attach_detach_round_trip_witness :
  in_sync fresh_world
  ∧ add_to_parent_map 400 allowed_types parent_P1 "TENANT_MANAGER" fresh_world
    = (Returned (tenant_obj attached_world), attached_world)
  ∧ ∃ w2, remove_from_parent_map "TENANT_MANAGER" attached_world
          = (Returned tenant_T1, w2)
      ∧ table w2 = two_tenants.
Proof.
  assert (in_sync fresh_world) as Hsync by (vm_compute; reflexivity).
  assert (add_to_parent_map 400 allowed_types parent_P1 "TENANT_MANAGER"
            fresh_world
          = (Returned (tenant_obj attached_world), attached_world)) as Hrun
    by (vm_compute; reflexivity).
  split; [exact Hsync|]. split; [exact Hrun|].
  destruct (attach_detach_round_trip 400 allowed_types parent_P1
              "TENANT_MANAGER" fresh_world _ _ Hsync Hrun)
    as (w2 & Hback & _ & Htable).
  exists w2. split; [exact Hback|exact Htable].
Defined.

Lemma detach_then_attach_witness :
  in_sync linked_world
  ∧ "CUSTODIAN" ∈ allowed_types
  ∧ remove_from_parent_map "CUSTODIAN" linked_world
    = (Returned (tenant_obj unlinked_world), unlinked_world)
  ∧ ∃ w2, add_to_parent_map 400 allowed_types parent_P1 "CUSTODIAN"
            unlinked_world = (Returned (tenant_obj w2), w2)
      ∧ parent_map (tenant_obj w2) !! "CUSTODIAN" = Some "P1".
Proof.
  assert (in_sync linked_world) as Hsync by (vm_compute; reflexivity).
  assert ("CUSTODIAN" ∈ allowed_types) as Hin by compute_done.
  assert (remove_from_parent_map "CUSTODIAN" linked_world
          = (Returned (tenant_obj unlinked_world), unlinked_world)) as Hrun
    by (vm_compute; reflexivity).
  split; [exact Hsync|]. split; [exact Hin|]. split; [exact Hrun|].
  destruct (detach_then_attach 400 allowed_types parent_P1 "CUSTODIAN"
              linked_world _ _ Hsync Hin eq_refl eq_refl Hrun)
    as (w2 & Hattach & Hslot & _).
  exists w2. split; [exact Hattach|exact Hslot].
Defined.

Lemma linkage_allowed_preserved_witness :
  linkage_allowed allowed_types linked_world
  ∧ linkage_allowed allowed_types
      (add_to_parent_map 400 allowed_types parent_P1 "TENANT_MANAGER"
         linked_world).2
  ∧ stored_parent_map
      (add_to_parent_map 400 allowed_types parent_P1 "TENANT_MANAGER"
         linked_world).2 "T1"
    = {["CUSTODIAN" := "P0"; "TENANT_MANAGER" := "P1"]}.
Proof.
  assert (linkage_allowed allowed_types linked_world) as Hinv
    by (split; compute_done).
  split; [exact Hinv|]. split.
  - exact (proj1 (linkage_allowed_preserved 400 allowed_types parent_P1
                    "TENANT_MANAGER" linked_world Hinv)).
  - vm_compute; reflexivity.
Defined.

(** ** More on the queries *)

Lemma filter_holds_None (items : list Tenant) :
  filter (λ t, holds None t) items = items.
Proof.
  induction items as [|t rest IH]; [done|].
  rewrite filter_cons_True by done. by rewrite IH.
Qed.

(** X10.  [get_tenants_by_parent_id] returns, unpaged, exactly the stored
    tenants of the parent whose [is_active] equals the flag.  With the flag
    false it therefore selects the inactive tenants of the parent: an active
    tenant is never in that result. *)
Theorem get_tenants_by_parent_id_selects table parent_id only_active :
  get_tenants_by_parent_id table parent_id only_active
  = filter (λ t, management_parent_id t = Some parent_id
                 ∧ is_active t = Some only_active)
      (visited table None)
  ∧ (∀ t, is_active t = Some true →
          t ∉ get_tenants_by_parent_id table parent_id false)
  ∧ (∀ k t, table !! k = Some t →
       management_parent_id t = Some parent_id →
       is_active t = Some only_active →
       t ∈ get_tenants_by_parent_id table parent_id only_active).
Proof.
  assert (∀ flag, get_tenants_by_parent_id table parent_id flag
    = filter (λ t, management_parent_id t = Some parent_id
                   ∧ is_active t = Some flag)
        (visited table None)) as Heq.
  { intros flag. unfold get_tenants_by_parent_id, i_get_tenant_by_parent_id,
      scan, bounded.
    apply list_filter_iff. intros t. simpl.
    rewrite Is_true_true, andb_true_iff, !bool_decide_eq_true.
    destruct (management_parent_id t), (is_active t); simpl; split;
      intros [? ?]; split; congruence. }
  split; [apply Heq|]. split.
  - intros t Hactive. rewrite Heq. intros [[_ Hflag] _]%list_elem_of_filter.
    congruence.
  - intros k t Hk Hparent Hflag. rewrite Heq. apply list_elem_of_filter.
    split; [done|]. by eapply visited_whole.
Qed.

(** X11.  The by-account query returns the page of the items whose
    [project] is the account asked for and whose activity is the one asked
    for, if any: a tenant without project is never returned, and with no
    page bound every matching stored tenant is. *)
Theorem i_get_by_acc_selects table acc active limit last_evaluated_key :
  i_get_by_acc table acc active limit last_evaluated_key
  = bounded limit
      (filter (λ t, project t = Some acc ∧ active_matches active t = true)
         (visited table last_evaluated_key))
  ∧ (∀ t, project t = None →
          t ∉ i_get_by_acc table acc active limit last_evaluated_key)
  ∧ (∀ k t, table !! k = Some t → project t = Some acc →
       active_matches active t = true →
       t ∈ i_get_by_acc table acc active None None).
Proof.
  assert (∀ lim lek, i_get_by_acc table acc active lim lek
    = bounded lim
        (filter (λ t, project t = Some acc ∧ active_matches active t = true)
           (visited table lek))) as Heq.
  { intros lim lek. unfold i_get_by_acc. rewrite query_filter. f_equal.
    apply list_filter_iff. intros t. rewrite holds_active. simpl.
    destruct (project t); simpl; split.
    - intros ([= ->] & _ & Ha). done.
    - intros ([= ->] & Ha). done.
    - intros ([=] & _).
    - intros ([=] & _). }
  split; [apply Heq|]. split.
  - intros t Hnone. rewrite Heq. intros Hin%bounded_subseteq.
    apply list_elem_of_filter in Hin as [[Hp _] _]. congruence.
  - intros k t Hk Hp Ha. rewrite Heq. simpl. apply list_elem_of_filter.
    split; [done|]. by eapply visited_whole.
Qed.

(** X12.  Without the active-only flag the scan is unfiltered: it returns
    the page of all visited items, unpaged every stored tenant and nothing
    else, and the active-only result is a sublist of it. *)
Theorem scan_tenants_all table limit last_evaluated_key :
  scan_tenants table false limit last_evaluated_key
  = bounded limit (visited table last_evaluated_key)
  ∧ (∀ t, t ∈ scan_tenants table false None None ↔ stored table t)
  ∧ scan_tenants table true None last_evaluated_key
    `sublist_of` scan_tenants table false None last_evaluated_key.
Proof.
  assert (∀ lim lek, scan_tenants table false lim lek
                     = bounded lim (visited table lek)) as Heq.
  { intros lim lek. unfold scan_tenants, i_scan_tenants, scan.
    by rewrite filter_holds_None. }
  split; [apply Heq|]. split.
  - intros t. rewrite Heq. unfold bounded. split; [apply visited_stored|].
    intros [k Hk]. by eapply visited_whole.
  - rewrite Heq. unfold scan_tenants, i_scan_tenants, scan. simpl.
    apply sublist_filter.
Qed.

Lemma capital_no_small_letter c :
  occurs (capital_of c small_letters capital_letters) small_letters = false.
Proof. destruct c as [[] [] [] [] [] [] [] []]; reflexivity. Qed.

Lemma capitalised_no_small_letter s : has_small_letter (capitalised s) = false.
Proof.
  induction s as [|c rest IH]; [done|].
  change (has_small_letter (capitalised (String c rest)))
    with (occurs (capital_of c small_letters capital_letters) small_letters
          || has_small_letter (capitalised rest)).
  by rewrite capital_no_small_letter, IH.
Qed.

(** X13.  The cloud argument of the directory-name query is case
    insensitive, the stored attribute is not: two ASCII arguments that
    differ in the case of their letters only give the same result, and a
    tenant whose stored cloud has a small letter in it is returned by no
    query that passes an ASCII cloud. *)
Theorem i_get_by_dntl_cloud_case
    table dntl cloud1 cloud2 active limit last_evaluated_key :
  is_ascii cloud1 = true →
  is_ascii cloud2 = true →
  capitalised cloud1 = capitalised cloud2 →
  i_get_by_dntl table dntl (Some cloud1) active limit last_evaluated_key
  = i_get_by_dntl table dntl (Some cloud2) active limit last_evaluated_key
  ∧ ∀ t, has_small_letter (cloud t) = true →
         t ∉ i_get_by_dntl table dntl (Some cloud1) active limit
               last_evaluated_key.
Proof.
  intros _ _ Hsame. split.
  - unfold i_get_by_dntl. simpl. by rewrite !upper_capitalised, Hsame.
  - intros t Hsmall. unfold i_get_by_dntl. rewrite query_filter.
    intros Hin%bounded_subseteq.
    apply list_elem_of_filter in Hin as [(_ & Hc & _) _].
    simpl in Hc. apply bool_decide_eq_true in Hc. injection Hc as Hc.
    rewrite Hc, upper_capitalised, capitalised_no_small_letter in Hsmall.
    discriminate.
Qed.

Lemma i_get_by_dntl_cloud_case_witness :
  is_ascii "aws" = true
  ∧ is_ascii "Aws" = true
  ∧ capitalised "aws" = capitalised "Aws"
  ∧ i_get_by_dntl two_tenants "corp-unit-1" (Some "aws") None None None
    = i_get_by_dntl two_tenants "corp-unit-1" (Some "Aws") None None None
  ∧ i_get_by_dntl two_tenants "corp-unit-1" (Some "Aws") None None None
    = [tenant_T1].
Proof.
  assert (is_ascii "aws" = true) as H1 by reflexivity.
  assert (is_ascii "Aws" = true) as H2 by reflexivity.
  assert (capitalised "aws" = capitalised "Aws") as Hsame by reflexivity.
  do 3 (split; [assumption|]).
  destruct (i_get_by_dntl_cloud_case two_tenants "corp-unit-1" "aws" "Aws"
              None None None H1 H2 Hsame) as [Heq _].
  split; [exact Heq|]. vm_compute; reflexivity.
Defined.

Example i_get_by_dntl_lower_case_cloud :
  let lower := <["T3" := {| name := "T3"; customer_name := "ACME";
                            cloud := "aws";
                            display_name_to_lower := Some "corp-unit-1";
                            project := None; management_parent_id := None;
                            is_active := Some true; parent_map := ∅ |}]>
                 two_tenants in
  i_get_by_dntl lower "corp-unit-1" (Some "aws") None None None = [tenant_T1]
  ∧ List.length (i_get_by_dntl lower "corp-unit-1" None None None None) = 3.
Proof. split; vm_compute; reflexivity. Qed.

Example get_tenants_by_parent_id_flag :
  get_tenants_by_parent_id two_tenants "p2" false = [tenant_T2]
  ∧ get_tenants_by_parent_id two_tenants "p1" false = []
  ∧ get_tenants_by_parent_id two_tenants "p1" true = [tenant_T1].
Proof. repeat split; vm_compute; reflexivity. Qed.

(** ** More on the projection *)

(** The comprehension keeps an entry only if it is a dictionary with a
    display name. *)
Lemma region_kept_true each :
  region_kept each = Ok true →
  ∃ fields shown, each = JObj fields ∧ fields !! "maestro_name" = Some shown.
Proof.
  destruct each as [| | |s|items|fields]; try discriminate.
  - unfold region_kept. simpl. by destruct (occurs_in _ s).
  - unfold region_kept. simpl. by destruct (existsb _ items).
  - unfold region_kept. simpl.
    destruct (fields !! "maestro_name") as [shown|] eqn:Hname;
      [eauto|discriminate].
Qed.

Lemma region_kept_error each e :
  region_kept each = Fails e → e ≠ KeyError.
Proof.
  destruct each as [| | |s|items|fields]; unfold region_kept; simpl;
    try (intros [= <-]; discriminate).
  - destruct (occurs_in _ s); simpl; [intros [= <-]|]; discriminate.
  - destruct (existsb _ items); simpl; [intros [= <-]|]; discriminate.
  - by destruct (bool_decide _).
Qed.

Lemma display_names_error regions e :
  display_names regions = Fails e → e ≠ KeyError.
Proof.
  induction regions as [|each rest IH]; [discriminate|].
  cbn [display_names]. unfold mbind at 1, Result_bind at 1.
  destruct (region_kept each) as [[|]|e'] eqn:Hkept.
  - apply region_kept_true in Hkept as (fields & shown & -> & Hname).
    unfold getitem. rewrite Hname.
    unfold mbind at 1, Result_bind at 1.
    destruct (display_names rest) as [others|e'']; [discriminate|].
    simpl. intros [= <-]. by apply IH.
  - apply IH.
  - intros [= <-]. by eapply region_kept_error.
Qed.

(** X14.  The subscript [each['maestro_name']] is guarded by the membership
    test: whatever the dictionary, the projection never raises [KeyError]. *)
Theorem get_dto_no_KeyError tenant_json :
  get_dto tenant_json ≠ Fails KeyError.
Proof.
  unfold get_dto.
  destruct (iterate _) as [items|e] eqn:Hitems.
  - simpl. destruct (display_names items) as [shown|e] eqn:Hshown;
      [discriminate|].
    simpl. intros [= ->]. by eapply display_names_error.
  - simpl. intros [= ->]. revert Hitems. unfold iterate.
    by destruct (py_or _ _).
Qed.

(** X15.  Whatever the dictionary, when the projection returns its result
    has no [project] key, its [account_id] is the former value of [project]
    or null (an [account_id] of the input is overwritten), its [regions] is
    a list, and every other key is as in the input. *)
Theorem get_dto_returned tenant_json dto :
  get_dto tenant_json = Ok dto →
  dto !! "project" = None
  ∧ dto !! "account_id" = Some (default JNull (tenant_json !! "project"))
  ∧ (∃ shown, dto !! "regions" = Some (JList shown))
  ∧ ∀ k, k ≠ "project" → k ≠ "account_id" → k ≠ "regions" →
         dto !! k = tenant_json !! k.
Proof.
  intros Hrun.
  destruct (iterate (py_or (dict_get tenant_json "regions") (JList [])))
    as [items|e] eqn:Hitems; [|unfold get_dto in Hrun; by rewrite Hitems in Hrun].
  destruct (display_names items) as [shown|e] eqn:Hshown;
    [|unfold get_dto in Hrun; rewrite Hitems in Hrun; simpl in Hrun;
      by rewrite Hshown in Hrun].
  destruct (get_dto_lookup _ _ _ Hitems Hshown)
    as (dto' & Hrun' & Hacc & Hproj & Hreg & Hkeep).
  rewrite Hrun in Hrun'. injection Hrun' as <-. eauto 10.
Qed.

Lemma get_dto_returned_witness :
  get_dto {["account_id" := JStr "stale"; "regions" := JStr "eu"]}
  = Ok {["account_id" := JNull; "regions" := JList []]}
  ∧ ({["account_id" := JNull; "regions" := JList []]} : gmap string Json)
      !! "account_id" = Some JNull.
Proof.
  assert (get_dto {["account_id" := JStr "stale"; "regions" := JStr "eu"]}
          = Ok {["account_id" := JNull; "regions" := JList []]}) as Hrun
    by (vm_compute; reflexivity).
  split; [exact Hrun|].
  destruct (get_dto_returned _ _ Hrun) as (_ & Hacc & _).
  exact Hacc.
Defined.




